(** * Router, page lifecycle and scene controls of the 3D globe showcase

    A shallow embedding of the single-page router ([router.ts]), the two
    pages ([HomePage.ts], [NotFoundPage.ts]), the bootstrap ([main.ts]) and
    the control-facing part of the scene controller ([3d/Scene3D.ts]).

    JavaScript objects that are shared by reference (the [Page] instances,
    which the route table and [currentPage] both point to) live in a heap
    and are addressed by [ref]; everything the browser owns (location,
    history, title, scroll position, timers) is explicit state.  Calls whose
    order matters are recorded in a log. *)

From stdpp Require Import gmap strings list.
From Stdlib Require Import ZArith.


(** ** JavaScript conventions used by the sources *)

Module Js.

(** Truthiness of a value that is either [undefined] or a string, as in
    [!anchor.dataset.external]: the empty string is falsy. *)
Definition truthy_string (o : option string) : bool :=
  match o with
  | Some s => negb (String.eqb s EmptyString)
  | None => false
  end.

(** [s.startsWith(p)]. *)
Definition startsWith (s p : string) : bool := String.prefix p s.

(** [window.setTimeout] / [clearTimeout]: handles are handed out in
    increasing order, a pending handle fires at most once. *)
Record Timers := mkTimers { nextTimerId : nat; pendingTimers : list nat }.

Definition setTimeout (tm : Timers) : nat * Timers :=
  (nextTimerId tm,
   {| nextTimerId := S (nextTimerId tm);
      pendingTimers := nextTimerId tm :: pendingTimers tm |}).

Definition clearTimeout (id : nat) (tm : Timers) : Timers :=
  {| nextTimerId := nextTimerId tm;
     pendingTimers := filter (λ x, x ≠ id) (pendingTimers tm) |}.

Definition noTimers : Timers := {| nextTimerId := 1; pendingTimers := [] |}.

End Js.

(** ** The scene controller, [3d/Scene3D.ts]

    Geometry, materials, textures and the render loop are calls into the
    graphics library and leave no trace in the fields below; the model keeps
    the fields that the two control handlers and the visibility toggles read
    or write, and what the constructor, [initialize] and [dispose] do to
    them. *)

Module Scene3D.

(** What the toggles observe of a [THREE.Object3D]. *)
Record Object3D := mkObject3D { visible : bool }.

(** What the toggles observe of a DOM element that the scene appends to its
    container ([stats.dom], [rendererInfoDiv]): [style.display], and whether
    it still has a [parentNode]. *)
Record Overlay := mkOverlay { display : string; attached : bool }.

Section WithCallback.

(** The type of the [onFirstInteraction] closure. *)
Context {Cb : Type}.

Record t := mkScene3D {
  animationId : option nat;
  controlsListening : bool;  (* 'controlstart'/'controlend' listeners installed *)
  earthPole : option Object3D;
  equatorLine : option Object3D;
  longitudeLinesGroup : option Object3D;
  latitudeLinesGroup : option Object3D;
  stats : option Overlay;
  rendererInfoDiv : option Overlay;
  autoRotateEnabled : bool;
  autoRotateAllowed : bool;
  inactivityTimeoutId : option nat;
  firstInteractionDone : bool;
  primeMeridianGroup : option Object3D;
  antimeridianLine : option Object3D;
  onFirstInteraction : option Cb
}.

(** Field updates. *)
Definition set_animationId (v : option nat) (s : t) : t :=
  match s with mkScene3D _ x1 x2 x3 x4 x5 x6 x7 x8 x9 x10 x11 x12 x13 x14 => mkScene3D v x1 x2 x3 x4 x5 x6 x7 x8 x9 x10 x11 x12 x13 x14 end.
Definition set_controlsListening (v : bool) (s : t) : t :=
  match s with mkScene3D x0 _ x2 x3 x4 x5 x6 x7 x8 x9 x10 x11 x12 x13 x14 => mkScene3D x0 v x2 x3 x4 x5 x6 x7 x8 x9 x10 x11 x12 x13 x14 end.
Definition set_earthPole (v : option Object3D) (s : t) : t :=
  match s with mkScene3D x0 x1 _ x3 x4 x5 x6 x7 x8 x9 x10 x11 x12 x13 x14 => mkScene3D x0 x1 v x3 x4 x5 x6 x7 x8 x9 x10 x11 x12 x13 x14 end.
Definition set_equatorLine (v : option Object3D) (s : t) : t :=
  match s with mkScene3D x0 x1 x2 _ x4 x5 x6 x7 x8 x9 x10 x11 x12 x13 x14 => mkScene3D x0 x1 x2 v x4 x5 x6 x7 x8 x9 x10 x11 x12 x13 x14 end.
Definition set_longitudeLinesGroup (v : option Object3D) (s : t) : t :=
  match s with mkScene3D x0 x1 x2 x3 _ x5 x6 x7 x8 x9 x10 x11 x12 x13 x14 => mkScene3D x0 x1 x2 x3 v x5 x6 x7 x8 x9 x10 x11 x12 x13 x14 end.
Definition set_latitudeLinesGroup (v : option Object3D) (s : t) : t :=
  match s with mkScene3D x0 x1 x2 x3 x4 _ x6 x7 x8 x9 x10 x11 x12 x13 x14 => mkScene3D x0 x1 x2 x3 x4 v x6 x7 x8 x9 x10 x11 x12 x13 x14 end.
Definition set_stats (v : option Overlay) (s : t) : t :=
  match s with mkScene3D x0 x1 x2 x3 x4 x5 _ x7 x8 x9 x10 x11 x12 x13 x14 => mkScene3D x0 x1 x2 x3 x4 x5 v x7 x8 x9 x10 x11 x12 x13 x14 end.
Definition set_rendererInfoDiv (v : option Overlay) (s : t) : t :=
  match s with mkScene3D x0 x1 x2 x3 x4 x5 x6 _ x8 x9 x10 x11 x12 x13 x14 => mkScene3D x0 x1 x2 x3 x4 x5 x6 v x8 x9 x10 x11 x12 x13 x14 end.
Definition set_autoRotateEnabled (v : bool) (s : t) : t :=
  match s with mkScene3D x0 x1 x2 x3 x4 x5 x6 x7 _ x9 x10 x11 x12 x13 x14 => mkScene3D x0 x1 x2 x3 x4 x5 x6 x7 v x9 x10 x11 x12 x13 x14 end.
Definition set_autoRotateAllowed (v : bool) (s : t) : t :=
  match s with mkScene3D x0 x1 x2 x3 x4 x5 x6 x7 x8 _ x10 x11 x12 x13 x14 => mkScene3D x0 x1 x2 x3 x4 x5 x6 x7 x8 v x10 x11 x12 x13 x14 end.
Definition set_inactivityTimeoutId (v : option nat) (s : t) : t :=
  match s with mkScene3D x0 x1 x2 x3 x4 x5 x6 x7 x8 x9 _ x11 x12 x13 x14 => mkScene3D x0 x1 x2 x3 x4 x5 x6 x7 x8 x9 v x11 x12 x13 x14 end.
Definition set_firstInteractionDone (v : bool) (s : t) : t :=
  match s with mkScene3D x0 x1 x2 x3 x4 x5 x6 x7 x8 x9 x10 _ x12 x13 x14 => mkScene3D x0 x1 x2 x3 x4 x5 x6 x7 x8 x9 x10 v x12 x13 x14 end.
Definition set_primeMeridianGroup (v : option Object3D) (s : t) : t :=
  match s with mkScene3D x0 x1 x2 x3 x4 x5 x6 x7 x8 x9 x10 x11 _ x13 x14 => mkScene3D x0 x1 x2 x3 x4 x5 x6 x7 x8 x9 x10 x11 v x13 x14 end.
Definition set_antimeridianLine (v : option Object3D) (s : t) : t :=
  match s with mkScene3D x0 x1 x2 x3 x4 x5 x6 x7 x8 x9 x10 x11 x12 _ x14 => mkScene3D x0 x1 x2 x3 x4 x5 x6 x7 x8 x9 x10 x11 x12 v x14 end.

(** [new Scene3D(container, onFirstInteraction)]. *)
Definition construct (cb : option Cb) : t :=
  {| animationId := None;
     controlsListening := true;
     earthPole := None;
     equatorLine := None;
     longitudeLinesGroup := None;
     latitudeLinesGroup := None;
     stats := Some {| display := "none"; attached := true |};
     rendererInfoDiv := Some {| display := "none"; attached := true |};
     autoRotateEnabled := true;
     autoRotateAllowed := true;
     inactivityTimeoutId := None;
     firstInteractionDone := false;
     primeMeridianGroup := None;
     antimeridianLine := None;
     onFirstInteraction := cb |}.

(** [handleControlStart]; the third component lists the callbacks it
    invoked, in order. *)
Definition handleControlStart (s : t) (tm : Js.Timers) : t * Js.Timers * list Cb :=
  let s := set_autoRotateEnabled false s in
  let '(s, tm) :=
    match inactivityTimeoutId s with
    | Some id => (set_inactivityTimeoutId None s, Js.clearTimeout id tm)
    | None => (s, tm)
    end in
  match firstInteractionDone s, onFirstInteraction s with
  | false, Some cb => (set_firstInteractionDone true s, tm, [cb])
  | _, _ => (s, tm, [])
  end.

(** [handleControlEnd]. *)
Definition handleControlEnd (s : t) (tm : Js.Timers) : t * Js.Timers :=
  let tm :=
    match inactivityTimeoutId s with
    | Some id => Js.clearTimeout id tm
    | None => tm
    end in
  if autoRotateAllowed s then
    let '(id, tm) := Js.setTimeout tm in
    (set_inactivityTimeoutId (Some id) s, tm)
  else (s, tm).

(** The closure handed to [setTimeout] by [handleControlEnd]. *)
Definition resumeAutoRotate (s : t) : t := set_autoRotateEnabled true s.

(** [initialize()]: the members created there start out visible;
    [frame] is the handle [requestAnimationFrame] returns to [animate]. *)
Definition initialize (frame : nat) (s : t) : t :=
  let shown := Some {| visible := true |} in
  let s := set_longitudeLinesGroup shown s in
  let s := set_latitudeLinesGroup shown s in
  let s := set_earthPole shown s in
  let s := set_equatorLine shown s in
  let s := set_antimeridianLine shown s in
  let s := set_primeMeridianGroup shown s in
  set_animationId (Some frame) s.

(** [dispose()]. *)
Definition dispose (s : t) (tm : Js.Timers) : t * Js.Timers :=
  let s := set_animationId None s in
  let s := set_controlsListening false s in
  let '(s, tm) :=
    match inactivityTimeoutId s with
    | Some id => (set_inactivityTimeoutId None s, Js.clearTimeout id tm)
    | None => (s, tm)
    end in
  let s :=
    match stats s with
    | Some o => if attached o then set_stats None s else s
    | None => s
    end in
  let s :=
    match rendererInfoDiv s with
    | Some o => if attached o then set_rendererInfoDiv None s else s
    | None => s
    end in
  (s, tm).

(** *** The public toggles *)

Definition setVisible (v : bool) (o : Object3D) : Object3D := {| visible := v |}.

Definition setDisplay (v : bool) (o : Overlay) : Overlay :=
  {| display := if v then "block" else "none"; attached := attached o |}.

Definition togglePoleVisibility (visible : bool) (s : t) : t :=
  match earthPole s with
  | Some o => set_earthPole (Some (setVisible visible o)) s
  | None => s
  end.

Definition toggleEquatorVisibility (visible : bool) (s : t) : t :=
  match equatorLine s with
  | Some o => set_equatorLine (Some (setVisible visible o)) s
  | None => s
  end.

Definition toggleLongitudeLinesVisibility (visible : bool) (s : t) : t :=
  match longitudeLinesGroup s with
  | Some o => set_longitudeLinesGroup (Some (setVisible visible o)) s
  | None => s
  end.

Definition toggleLatitudeLinesVisibility (visible : bool) (s : t) : t :=
  match latitudeLinesGroup s with
  | Some o => set_latitudeLinesGroup (Some (setVisible visible o)) s
  | None => s
  end.

Definition toggleStatsVisibility (visible : bool) (s : t) : t :=
  match stats s with
  | Some o => set_stats (Some (setDisplay visible o)) s
  | None => s
  end.

Definition toggleRendererInfoVisibility (visible : bool) (s : t) : t :=
  match rendererInfoDiv s with
  | Some o => set_rendererInfoDiv (Some (setDisplay visible o)) s
  | None => s
  end.

Definition toggleAutoRotate (enabled : bool) (s : t) : t :=
  set_autoRotateEnabled enabled (set_autoRotateAllowed enabled s).

Definition togglePrimeMeridianVisibility (visible : bool) (s : t) : t :=
  match primeMeridianGroup s with
  | Some o => set_primeMeridianGroup (Some (setVisible visible o)) s
  | None => s
  end.

Definition toggleAntimeridianVisibility (visible : bool) (s : t) : t :=
  match antimeridianLine s with
  | Some o => set_antimeridianLine (Some (setVisible visible o)) s
  | None => s
  end.

(** The eight visibility toggles by name, for statements that range over
    all of them. *)
Inductive Toggle :=
| PoleVisibility | EquatorVisibility | LongitudeLinesVisibility
| LatitudeLinesVisibility | StatsVisibility | RendererInfoVisibility
| PrimeMeridianVisibility | AntimeridianVisibility.

Definition toggle (op : Toggle) : bool → t → t :=
  match op with
  | PoleVisibility => togglePoleVisibility
  | EquatorVisibility => toggleEquatorVisibility
  | LongitudeLinesVisibility => toggleLongitudeLinesVisibility
  | LatitudeLinesVisibility => toggleLatitudeLinesVisibility
  | StatsVisibility => toggleStatsVisibility
  | RendererInfoVisibility => toggleRendererInfoVisibility
  | PrimeMeridianVisibility => togglePrimeMeridianVisibility
  | AntimeridianVisibility => toggleAntimeridianVisibility
  end.

(** Whether the member a toggle guards on is present (not [null]). *)
Definition targetPresent (op : Toggle) (s : t) : bool :=
  match op with
  | PoleVisibility => bool_decide (is_Some (earthPole s))
  | EquatorVisibility => bool_decide (is_Some (equatorLine s))
  | LongitudeLinesVisibility => bool_decide (is_Some (longitudeLinesGroup s))
  | LatitudeLinesVisibility => bool_decide (is_Some (latitudeLinesGroup s))
  | StatsVisibility => bool_decide (is_Some (stats s))
  | RendererInfoVisibility => bool_decide (is_Some (rendererInfoDiv s))
  | PrimeMeridianVisibility => bool_decide (is_Some (primeMeridianGroup s))
  | AntimeridianVisibility => bool_decide (is_Some (antimeridianLine s))
  end.

(** *** Events the camera controls and the timer deliver to a scene *)

Inductive ControlEvent :=
| ControlStart
| ControlEnd
| TimerFired (id : nat).

#[global] Instance ControlEvent_eq_dec : EqDecision ControlEvent.
Proof. solve_decision. Defined.

(** One event; listeners removed by [dispose] no longer run, and a timer
    fires only while its handle is pending. *)
Definition deliver (e : ControlEvent) (st : t * Js.Timers) : t * Js.Timers * list Cb :=
  let '(s, tm) := st in
  match e with
  | ControlStart =>
      if controlsListening s then handleControlStart s tm else (s, tm, [])
  | ControlEnd =>
      if controlsListening s then (handleControlEnd s tm, []) else (s, tm, [])
  | TimerFired id =>
      if bool_decide (id ∈ Js.pendingTimers tm)
      then (resumeAutoRotate s, Js.clearTimeout id tm, [])
      else (s, tm, [])
  end.

(** The callbacks invoked by each event of a sequence, event by event. *)
Fixpoint invocations (evs : list ControlEvent) (st : t * Js.Timers) : list (list Cb) :=
  match evs with
  | [] => []
  | e :: evs' =>
      let '(s, tm, cbs) := deliver e st in
      cbs :: invocations evs' (s, tm)
  end.

End WithCallback.

Arguments t : clear implicits.

End Scene3D.

(** ** DOM nodes *)

(** Identity of a DOM node; [document.createElement] hands out fresh ones. *)
Definition NodeId := nat.

(** ** [pages/NotFoundPage.ts] *)

Module NotFoundPage.

Record Element := mkElement { node : NodeId; className : string }.

Record t := mkNotFoundPage { element : option Element }.

Definition construct : t := {| element := None |}.

(** [create()]: a new [div.not-found] with the static 404 markup. *)
Definition create (fresh : NodeId) (p : t) : NodeId * t :=
  let el := {| node := fresh; className := "not-found" |} in
  (node el, {| element := Some el |}).

Definition destroy (p : t) : t := {| element := None |}.

Definition getTitle (p : t) : string := "404 - Page Not Found".

End NotFoundPage.

(** ** [pages/HomePage.ts] *)

Module HomePage.

(** The six checkboxes of the template, by their element id. *)
Inductive CheckboxId :=
| ShowPole | ShowEquator | ShowLongitudeLines
| ShowLatitudeLines | ShowStats | ShowRendererInfo.

#[global] Instance CheckboxId_eq_dec : EqDecision CheckboxId.
Proof. solve_decision. Defined.

(** The closure [handleFirstInteraction] of [initScene]. *)
Inductive Callback := HandleFirstInteraction.

(** The closures registered for 'change' in [initSceneControls]:
    [() => this.scene?.toggleX(box.checked)]. *)
Inductive ChangeListener := ApplyToggle (op : Scene3D.Toggle) (box : CheckboxId).

Record Checkbox := mkCheckbox { checked : bool; changeListeners : list ChangeListener }.

Record Checkboxes := mkCheckboxes {
  showPole : Checkbox;
  showEquator : Checkbox;
  showLongitudeLines : Checkbox;
  showLatitudeLines : Checkbox;
  showStats : Checkbox;
  showRendererInfo : Checkbox
}.

Definition getCheckbox (id : CheckboxId) (c : Checkboxes) : Checkbox :=
  match id with
  | ShowPole => showPole c
  | ShowEquator => showEquator c
  | ShowLongitudeLines => showLongitudeLines c
  | ShowLatitudeLines => showLatitudeLines c
  | ShowStats => showStats c
  | ShowRendererInfo => showRendererInfo c
  end.

Definition setCheckbox (id : CheckboxId) (b : Checkbox) (c : Checkboxes) : Checkboxes :=
  match c with
  | mkCheckboxes x0 x1 x2 x3 x4 x5 =>
      match id with
      | ShowPole => mkCheckboxes b x1 x2 x3 x4 x5
      | ShowEquator => mkCheckboxes x0 b x2 x3 x4 x5
      | ShowLongitudeLines => mkCheckboxes x0 x1 b x3 x4 x5
      | ShowLatitudeLines => mkCheckboxes x0 x1 x2 b x4 x5
      | ShowStats => mkCheckboxes x0 x1 x2 x3 b x5
      | ShowRendererInfo => mkCheckboxes x0 x1 x2 x3 x4 b
      end
  end.

(** A sidebar with its toggle button: the 'collapsed' class, the icon text,
    and whether the button's click listener is installed. *)
Record Sidebar := mkSidebar { collapsed : bool; icon : string; wired : bool }.

(** [.canvas-overlay]: the two style properties the page writes and the
    number of 'transitionend' listeners on it. *)
Record CanvasOverlay := mkCanvasOverlay {
  opacity : string;
  display : string;
  transitionendListeners : nat
}.

Record Element := mkElement {
  node : NodeId;
  className : string;
  checkboxes : Checkboxes;
  leftSidebar : Sidebar;
  rightSidebar : Sidebar;
  canvasOverlay : CanvasOverlay
}.

Definition set_checkboxes (v : Checkboxes) (e : Element) : Element :=
  match e with mkElement x0 x1 _ x3 x4 x5 => mkElement x0 x1 v x3 x4 x5 end.
Definition set_leftSidebar (v : Sidebar) (e : Element) : Element :=
  match e with mkElement x0 x1 x2 _ x4 x5 => mkElement x0 x1 x2 v x4 x5 end.
Definition set_rightSidebar (v : Sidebar) (e : Element) : Element :=
  match e with mkElement x0 x1 x2 x3 _ x5 => mkElement x0 x1 x2 x3 v x5 end.
Definition set_canvasOverlay (v : CanvasOverlay) (e : Element) : Element :=
  match e with mkElement x0 x1 x2 x3 x4 _ => mkElement x0 x1 x2 x3 x4 v end.

(** A page instance.  [timers] is the window's timer table, which only the
    scene of this page uses; [sceneCalls] is a record, kept for the proofs,
    of the toggle calls the page has made on its scene controller. *)
Record t := mkHomePage {
  element : option Element;
  scene : option (Scene3D.t Callback);
  timers : Js.Timers;
  sceneCalls : list (Scene3D.Toggle * bool)
}.

Definition set_element (v : option Element) (p : t) : t :=
  match p with mkHomePage _ x1 x2 x3 => mkHomePage v x1 x2 x3 end.
Definition set_scene (v : option (Scene3D.t Callback)) (p : t) : t :=
  match p with mkHomePage x0 _ x2 x3 => mkHomePage x0 v x2 x3 end.
Definition set_timers (v : Js.Timers) (p : t) : t :=
  match p with mkHomePage x0 x1 _ x3 => mkHomePage x0 x1 v x3 end.
Definition set_sceneCalls (v : list (Scene3D.Toggle * bool)) (p : t) : t :=
  match p with mkHomePage x0 x1 x2 _ => mkHomePage x0 x1 x2 v end.

Definition construct : t :=
  {| element := None; scene := None; timers := Js.noTimers; sceneCalls := [] |}.

(** The element tree that [create] builds from its template: every
    checkbox carries the [checked] attribute, the right sidebar starts
    collapsed, nothing has listeners yet. *)
Definition template (fresh : NodeId) : Element :=
  let box := {| checked := true; changeListeners := [] |} in
  {| node := fresh;
     className := "home-page-layout";
     checkboxes := mkCheckboxes box box box box box box;
     leftSidebar := {| collapsed := false; icon := ">"; wired := false |};
     rightSidebar := {| collapsed := true; icon := ">"; wired := false |};
     canvasOverlay := {| opacity := EmptyString; display := EmptyString; transitionendListeners := 0 |} |}.

(** [this.scene.toggleX(v)] / [this.scene?.toggleX(v)]. *)
Definition callToggle (op : Scene3D.Toggle) (v : bool) (p : t) : t :=
  match scene p with
  | Some sc =>
      set_sceneCalls (sceneCalls p ++ [(op, v)])
        (set_scene (Some (Scene3D.toggle op v sc)) p)
  | None => p
  end.

(** [initScene()]: the template always contains [#scene-container] and
    [.canvas-overlay], so both queries succeed whenever the element exists. *)
Definition initScene (p : t) : t :=
  match element p with
  | Some _ =>
      let sc := Scene3D.construct (Some HandleFirstInteraction) in
      set_scene (Some (Scene3D.initialize 1 sc)) p
  | None => p
  end.

Definition initSidebarToggles (p : t) : t :=
  match element p with
  | None => p
  | Some el =>
      let wire (s : Sidebar) := {| collapsed := collapsed s; icon := icon s; wired := true |} in
      let el := set_leftSidebar (wire (leftSidebar el)) el in
      let el := set_rightSidebar (wire (rightSidebar el)) el in
      set_element (Some el) p
  end.

(** [box.addEventListener('change', l)]. *)
Definition addChangeListener (id : CheckboxId) (l : ChangeListener) (el : Element) : Element :=
  let b := getCheckbox id (checkboxes el) in
  let b := {| checked := checked b; changeListeners := changeListeners b ++ [l] |} in
  set_checkboxes (setCheckbox id b (checkboxes el)) el.

Definition initSceneControls (p : t) : t :=
  match element p, scene p with
  | Some el, Some _ =>
      let el := addChangeListener ShowPole (ApplyToggle Scene3D.PoleVisibility ShowPole) el in
      let el := addChangeListener ShowEquator (ApplyToggle Scene3D.EquatorVisibility ShowEquator) el in
      let el := addChangeListener ShowLongitudeLines
                  (ApplyToggle Scene3D.LongitudeLinesVisibility ShowLongitudeLines) el in
      let el := addChangeListener ShowLatitudeLines
                  (ApplyToggle Scene3D.LatitudeLinesVisibility ShowLatitudeLines) el in
      let el := addChangeListener ShowStats (ApplyToggle Scene3D.StatsVisibility ShowStats) el in
      let el := addChangeListener ShowRendererInfo
                  (ApplyToggle Scene3D.RendererInfoVisibility ShowRendererInfo) el in
      let p := set_element (Some el) p in
      let boxes := checkboxes el in
      (* Set initial visibility based on checkboxes *)
      let p := callToggle Scene3D.PoleVisibility (checked (showPole boxes)) p in
      let p := callToggle Scene3D.EquatorVisibility (checked (showEquator boxes)) p in
      let p := callToggle Scene3D.LongitudeLinesVisibility (checked (showLongitudeLines boxes)) p in
      let p := callToggle Scene3D.LatitudeLinesVisibility (checked (showLatitudeLines boxes)) p in
      let p := callToggle Scene3D.StatsVisibility (checked (showStats boxes)) p in
      callToggle Scene3D.RendererInfoVisibility (checked (showRendererInfo boxes)) p
  | _, _ => p
  end.

Definition create (fresh : NodeId) (p : t) : NodeId * t :=
  let p := set_element (Some (template fresh)) p in
  let p := initScene p in
  let p := initSidebarToggles p in
  let p := initSceneControls p in
  (fresh, p).

Definition destroy (p : t) : t :=
  let p :=
    match scene p with
    | Some sc =>
        let '(_, tm) := Scene3D.dispose sc (timers p) in
        set_scene None (set_timers tm p)
    | None => p
    end in
  set_element None p.

Definition getTitle (p : t) : string := "3D Experience | Home".

(** *** What the user and the browser can do to a mounted home page *)

Inductive UiEvent :=
| Change (box : CheckboxId)          (* the user flips a checkbox *)
| SidebarButtonClick (onLeft : bool)   (* a click on a sidebar toggle button *)
| Control (e : Scene3D.ControlEvent) (* camera controls and the inactivity timer *)
| TransitionEnd.                     (* the overlay's opacity transition ends *)

Definition runChangeListener (l : ChangeListener) (p : t) : t :=
  match l, element p with
  | ApplyToggle op box, Some el =>
      callToggle op (checked (getCheckbox box (checkboxes el))) p
  | _, None => p
  end.

(** The body of [handleFirstInteraction]. *)
Definition runCallback (cb : Callback) (p : t) : t :=
  match cb, element p with
  | HandleFirstInteraction, Some el =>
      let o := canvasOverlay el in
      let o := {| opacity := "0"; display := display o;
                  transitionendListeners := S (transitionendListeners o) |} in
      set_element (Some (set_canvasOverlay o el)) p
  | _, None => p
  end.

Definition clickSidebarButton (onLeft : bool) (el : Element) : Element :=
  if onLeft then
    let s := leftSidebar el in
    if wired s then
      let c := negb (collapsed s) in
      set_leftSidebar {| collapsed := c; icon := if c then "<" else ">"; wired := true |} el
    else el
  else
    let s := rightSidebar el in
    if wired s then
      let c := negb (collapsed s) in
      set_rightSidebar {| collapsed := c; icon := if c then ">" else "<"; wired := true |} el
    else el.

Definition dispatch (e : UiEvent) (p : t) : t :=
  match e with
  | Change box =>
      match element p with
      | Some el =>
          let b := getCheckbox box (checkboxes el) in
          let b' := {| checked := negb (checked b); changeListeners := changeListeners b |} in
          let p := set_element (Some (set_checkboxes (setCheckbox box b' (checkboxes el)) el)) p in
          foldl (λ p l, runChangeListener l p) p (changeListeners b)
      | None => p
      end
  | SidebarButtonClick onLeft =>
      match element p with
      | Some el => set_element (Some (clickSidebarButton onLeft el)) p
      | None => p
      end
  | Control ce =>
      match scene p with
      | Some sc =>
          let '(sc, tm, cbs) := Scene3D.deliver ce (sc, timers p) in
          let p := set_timers tm (set_scene (Some sc) p) in
          foldl (λ p cb, runCallback cb p) p cbs
      | None => p
      end
  | TransitionEnd =>
      match element p with
      | Some el =>
          let o := canvasOverlay el in
          if decide (transitionendListeners o = 0) then p
          else
            let o := {| opacity := opacity o; display := "none"; transitionendListeners := 0 |} in
            set_element (Some (set_canvasOverlay o el)) p
      | None => p
      end
  end.

Definition dispatchAll (evs : list UiEvent) (p : t) : t :=
  foldl (λ p e, dispatch e p) p evs.

(** *** Observations *)

Definition allCheckboxes : list CheckboxId :=
  [ShowPole; ShowEquator; ShowLongitudeLines; ShowLatitudeLines; ShowStats; ShowRendererInfo].

(** The toggle that [initSceneControls] pairs with a checkbox. *)
Definition toggleFor (box : CheckboxId) : Scene3D.Toggle :=
  match box with
  | ShowPole => Scene3D.PoleVisibility
  | ShowEquator => Scene3D.EquatorVisibility
  | ShowLongitudeLines => Scene3D.LongitudeLinesVisibility
  | ShowLatitudeLines => Scene3D.LatitudeLinesVisibility
  | ShowStats => Scene3D.StatsVisibility
  | ShowRendererInfo => Scene3D.RendererInfoVisibility
  end.

(** [box.checked] on the page's current element. *)
Definition isChecked (box : CheckboxId) (p : t) : option bool :=
  (λ el, checked (getCheckbox box (checkboxes el))) <$> element p.

(** What holds of a home page between [create] and [destroy]: it has its
    element and its scene, and each checkbox carries exactly the listener
    that [initSceneControls] gave it. *)
Definition wired_up (p : t) : Prop :=
  ∃ el sc, element p = Some el ∧ scene p = Some sc
    ∧ ∀ box, changeListeners (getCheckbox box (checkboxes el))
             = [ApplyToggle (toggleFor box) box].

End HomePage.

(** ** The [Page] capability *)

(** Modelled from the spec: the interface [Page] of [types/page.ts], which
    the router imports and both pages implement; section 6 of the
    specification gives its surface as [create() -> Element],
    [destroy() -> void], [getTitle() -> String].  A class [cls : Cls] is
    what [addRoute] receives ([new () => Page]); [St] is the state of an
    instance.  [create] is handed the node that [document.createElement]
    would return next.  The methods act on the instance's own state and
    return normally, as those of both implementations do. *)
Class Page (Cls St : Type) := {
  page_new : Cls → St;
  page_create : NodeId → St → NodeId * St;
  page_destroy : St → St;
  page_getTitle : St → string
}.

(** The two page classes that [main.ts] registers. *)
Inductive AppPageClass := HomePageClass | NotFoundPageClass.

Inductive AppPage :=
| Home (p : HomePage.t)
| NotFound (p : NotFoundPage.t).

#[export] Instance app_page : Page AppPageClass AppPage := {|
  page_new cls :=
    match cls with
    | HomePageClass => Home HomePage.construct
    | NotFoundPageClass => NotFound NotFoundPage.construct
    end;
  page_create fresh st :=
    match st with
    | Home p => let '(el, p) := HomePage.create fresh p in (el, Home p)
    | NotFound p => let '(el, p) := NotFoundPage.create fresh p in (el, NotFound p)
    end;
  page_destroy st :=
    match st with
    | Home p => Home (HomePage.destroy p)
    | NotFound p => NotFound (NotFoundPage.destroy p)
    end;
  page_getTitle st :=
    match st with
    | Home p => HomePage.getTitle p
    | NotFound p => NotFoundPage.getTitle p
    end
|}.

(** ** URLs and anchors, as the click listener reads them *)

Module Url.

(** A parsed URL; [protocol] includes the colon, [userinfo] and [port] are
    empty when absent, [search] and [hash] include their delimiter. *)
Record t := mkUrl {
  protocol : string;
  userinfo : string;
  host : string;
  port : string;
  pathname : string;
  search : string;
  hash : string
}.

Definition authority (u : t) : string :=
  host u +:+ (if String.eqb (port u) EmptyString then EmptyString else ":" +:+ port u).

(** [url.origin]: scheme, host and port. *)
Definition origin (u : t) : string := protocol u +:+ "//" +:+ authority u.

(** [url.href]: the serialised URL. *)
Definition href (u : t) : string :=
  protocol u +:+ "//"
  +:+ (if String.eqb (userinfo u) EmptyString then EmptyString else userinfo u +:+ "@")
  +:+ authority u +:+ pathname u +:+ search u +:+ hash u.

(** [https://host/pathname]. *)
Definition https (host pathname : string) : t :=
  {| protocol := "https:"; userinfo := EmptyString; host := host; port := EmptyString;
     pathname := pathname; search := EmptyString; hash := EmptyString |}.

Definition withUserinfo (info : string) (u : t) : t :=
  {| protocol := protocol u; userinfo := info; host := host u; port := port u;
     pathname := pathname u; search := search u; hash := hash u |}.

End Url.

(** An [<a>] element: the URL its [href] attribute resolves to (none when
    the attribute is missing, in which case [href] and [pathname] read as
    the empty string) and [dataset.external]. *)
Record Anchor := mkAnchor {
  target : option Url.t;
  datasetExternal : option string
}.

Definition anchor_href (a : Anchor) : string :=
  match target a with Some u => Url.href u | None => EmptyString end.

Definition anchor_pathname (a : Anchor) : string :=
  match target a with Some u => Url.pathname u | None => EmptyString end.

(** Whether a link leads to the origin [o]. *)
Definition sameOrigin (o : string) (a : Anchor) : bool :=
  match target a with
  | Some u => String.eqb (Url.origin u) o
  | None => false
  end.

(** Whether a link carries the [data-external] attribute. *)
Definition markedExternal (a : Anchor) : bool :=
  bool_decide (is_Some (datasetExternal a)).

(** A click: [closestAnchor] is [e.target.closest('a')]. *)
Record MouseEvent := mkMouseEvent { closestAnchor : option Anchor }.

(** ** [router/router.ts] *)

Module Router.

(** A reference to a [Page] instance in the heap. *)
Definition ref := nat.

(** A child of the container: a node the host document put there, or the
    root element a page's [create] returned. *)
Inductive Child :=
| HostNode (n : NodeId)
| PageRoot (owner : ref) (n : NodeId).

(** A link matched by ['.nav a']. *)
Record NavLink := mkNavLink { linkPathname : string; active : bool }.

Section WithPages.

Context {Cls St : Type} `{!Page Cls St}.

(** The pathname [window.location] reports after
    [history.pushState({}, '', url)], given the pathname before the call:
    URL resolution belongs to the browser and is left open. *)
Variable resolvePathname : string → string → string.

(** The calls whose order the properties speak about. *)
Inductive Event :=
| EvConstruct (cls : Cls) (r : ref)   (* new pageClass() *)
| EvDestroy (r : ref)                 (* page.destroy() *)
| EvClear                             (* container.innerHTML = '' *)
| EvCreate (r : ref) (el : NodeId)    (* page.create(), returning el *)
| EvAppend (r : ref) (el : NodeId)    (* container.appendChild(el) *)
| EvSetTitle (t : string)             (* document.title = t *)
| EvScrollTo (x y : Z)                (* window.scrollTo(x, y) *)
| EvPushState (url : string)          (* history.pushState({}, '', url) *)
| EvPreventDefault.                   (* e.preventDefault() *)

(** The router's fields ([routes], [container], [currentPage]), the heap
    of page instances, and the parts of [window] and [document] it uses. *)
Record World := mkWorld {
  routes : gmap string ref;
  container : list Child;
  currentPage : option ref;
  heap : list St;
  locationOrigin : string;
  locationPathname : string;
  history : list string;
  title : string;
  scroll : Z * Z;
  navLinks : list NavLink;
  nextNode : NodeId;
  log : list Event
}.

(** Field updates. *)
Definition set_routes (v : gmap string ref) (s : World) : World :=
  match s with mkWorld _ x1 x2 x3 x4 x5 x6 x7 x8 x9 x10 x11 => mkWorld v x1 x2 x3 x4 x5 x6 x7 x8 x9 x10 x11 end.
Definition set_container (v : list Child) (s : World) : World :=
  match s with mkWorld x0 _ x2 x3 x4 x5 x6 x7 x8 x9 x10 x11 => mkWorld x0 v x2 x3 x4 x5 x6 x7 x8 x9 x10 x11 end.
Definition set_currentPage (v : option ref) (s : World) : World :=
  match s with mkWorld x0 x1 _ x3 x4 x5 x6 x7 x8 x9 x10 x11 => mkWorld x0 x1 v x3 x4 x5 x6 x7 x8 x9 x10 x11 end.
Definition set_heap (v : list St) (s : World) : World :=
  match s with mkWorld x0 x1 x2 _ x4 x5 x6 x7 x8 x9 x10 x11 => mkWorld x0 x1 x2 v x4 x5 x6 x7 x8 x9 x10 x11 end.
Definition set_locationPathname (v : string) (s : World) : World :=
  match s with mkWorld x0 x1 x2 x3 x4 _ x6 x7 x8 x9 x10 x11 => mkWorld x0 x1 x2 x3 x4 v x6 x7 x8 x9 x10 x11 end.
Definition set_history (v : list string) (s : World) : World :=
  match s with mkWorld x0 x1 x2 x3 x4 x5 _ x7 x8 x9 x10 x11 => mkWorld x0 x1 x2 x3 x4 x5 v x7 x8 x9 x10 x11 end.
Definition set_title (v : string) (s : World) : World :=
  match s with mkWorld x0 x1 x2 x3 x4 x5 x6 _ x8 x9 x10 x11 => mkWorld x0 x1 x2 x3 x4 x5 x6 v x8 x9 x10 x11 end.
Definition set_scroll (v : Z * Z) (s : World) : World :=
  match s with mkWorld x0 x1 x2 x3 x4 x5 x6 x7 _ x9 x10 x11 => mkWorld x0 x1 x2 x3 x4 x5 x6 x7 v x9 x10 x11 end.
Definition set_navLinks (v : list NavLink) (s : World) : World :=
  match s with mkWorld x0 x1 x2 x3 x4 x5 x6 x7 x8 _ x10 x11 => mkWorld x0 x1 x2 x3 x4 x5 x6 x7 x8 v x10 x11 end.
Definition set_nextNode (v : NodeId) (s : World) : World :=
  match s with mkWorld x0 x1 x2 x3 x4 x5 x6 x7 x8 x9 _ x11 => mkWorld x0 x1 x2 x3 x4 x5 x6 x7 x8 x9 v x11 end.
Definition set_log (v : list Event) (s : World) : World :=
  match s with mkWorld x0 x1 x2 x3 x4 x5 x6 x7 x8 x9 x10 _ => mkWorld x0 x1 x2 x3 x4 x5 x6 x7 x8 x9 x10 v end.

(** Computations that read and update the world. *)
Definition M (A : Type) : Type := World → A * World.

#[export] Instance M_ret : MRet M := λ A a w, (a, w).
#[export] Instance M_bind : MBind M := λ A B f m w, let '(a, w') := m w in f a w'.

Definition get {A} (f : World → A) : M A := λ w, (f w, w).
Definition modify (f : World → World) : M unit := λ w, (tt, f w).
Definition exec {A} (m : M A) (w : World) : World := (m w).2.
Definition emit (e : Event) : M unit := modify (λ w, set_log (log w ++ [e]) w).

(** *** Calls on page instances *)

Definition new (cls : Cls) : M ref := λ w,
  let r := length (heap w) in
  (r, set_log (log w ++ [EvConstruct cls r]) (set_heap (heap w ++ [page_new cls]) w)).

Definition callDestroy (r : ref) : M unit :=
  emit (EvDestroy r);;
  modify (λ w, set_heap (alter page_destroy r (heap w)) w).

(** A reference taken from [routes] always points into the heap; the
    second branch is there to make the function total. *)
Definition callCreate (r : ref) : M NodeId := λ w,
  match heap w !! r with
  | Some st =>
      let '(el, st') := page_create (nextNode w) st in
      (el, set_log (log w ++ [EvCreate r el])
             (set_nextNode (S (nextNode w)) (set_heap (<[r := st']> (heap w)) w)))
  | None => (nextNode w, w)
  end.

Definition callGetTitle (r : ref) : M string :=
  get (λ w, from_option page_getTitle EmptyString (heap w !! r)).

(** *** DOM and window primitives *)

Definition clearContainer : M unit :=
  emit EvClear;; modify (set_container []).

Definition appendChild (r : ref) (el : NodeId) : M unit :=
  emit (EvAppend r el);;
  modify (λ w, set_container (container w ++ [PageRoot r el]) w).

Definition setTitle (t : string) : M unit :=
  emit (EvSetTitle t);; modify (set_title t).

Definition scrollTo (x y : Z) : M unit :=
  emit (EvScrollTo x y);; modify (set_scroll (x, y)).

Definition pushState (url : string) : M unit :=
  emit (EvPushState url);;
  modify (λ w, set_locationPathname (resolvePathname (locationPathname w) url)
                 (set_history (history w ++ [url]) w)).

(** *** The router's methods *)

(** [new Router(container)] in a document at [origin] and [path]. *)
Definition newRouter (origin path docTitle : string) (links : list NavLink)
    (children : list NodeId) : World :=
  {| routes := ∅;
     container := HostNode <$> children;
     currentPage := None;
     heap := [];
     locationOrigin := origin;
     locationPathname := path;
     history := [];
     title := docTitle;
     scroll := (0, 0)%Z;
     navLinks := links;
     nextNode := 0;
     log := [] |}.

Definition addRoute (path : string) (pageClass : Cls) : M unit :=
  r ← new pageClass;
  modify (λ w, set_routes (<[path := r]> (routes w)) w).

Definition handleRouteChange : M unit :=
  path ← get locationPathname;
  (* Find the matching route or use wildcard *)
  page ← get (λ w, routes w !! path);
  page ← match page with
         | Some _ => mret page
         | None => get (λ w, routes w !! "*")
         end;
  match page with
  | Some page =>
      (* Cleanup current page if exists *)
      cur ← get currentPage;
      match cur with
      | Some c => callDestroy c
      | None => mret tt
      end;;
      clearContainer;;
      pageElement ← callCreate page;
      appendChild page pageElement;;
      modify (set_currentPage (Some page));;
      t ← callGetTitle page;
      setTitle t;;
      scrollTo 0 0
  | None => mret tt
  end.

Definition setupNavHighlighting : M unit :=
  path ← get locationPathname;
  modify (λ w,
    set_navLinks
      ((λ l, {| linkPathname := linkPathname l;
                active := bool_decide (linkPathname l = path) |}) <$> navLinks w) w).

Definition start : M unit :=
  handleRouteChange;; setupNavHighlighting.

Definition navigate (path : string) : M unit :=
  pushState path;; handleRouteChange;; setupNavHighlighting.

(** The 'popstate' listener; the browser has already moved the location
    to [path] when it runs. *)
Definition onPopState (path : string) : M unit :=
  modify (set_locationPathname path);; handleRouteChange.

(** The delegated 'click' listener. *)
Definition onClick (e : MouseEvent) : M unit :=
  match closestAnchor e with
  | Some anchor =>
      origin ← get locationOrigin;
      if Js.startsWith (anchor_href anchor) origin
         && negb (Js.truthy_string (datasetExternal anchor))
      then emit EvPreventDefault;; navigate (anchor_pathname anchor)
      else mret tt
  | None => mret tt
  end.

(** *** Everything that can happen to a router *)

Inductive Action :=
| AddRoute (path : string) (pageClass : Cls)
| Start
| Navigate (path : string)
| PopState (path : string)
| Click (e : MouseEvent).

Definition step (a : Action) : M unit :=
  match a with
  | AddRoute path pageClass => addRoute path pageClass
  | Start => start
  | Navigate path => navigate path
  | PopState path => onPopState path
  | Click e => onClick e
  end.

Definition run (acts : list Action) (w : World) : World :=
  foldl (λ w a, exec (step a) w) w acts.

(** *** Observations *)

(** The page a resolution at pathname [q] would mount, if any; [resolves]
    is the same at the current location. *)
Definition resolvesAt (q : string) (w : World) : option ref :=
  match routes w !! q with
  | Some r => Some r
  | None => routes w !! "*"
  end.

Definition resolves (w : World) : option ref := resolvesAt (locationPathname w) w.

(** The pages whose root element is a child of the container. *)
Definition mountedPages (w : World) : list ref :=
  omap (λ c, match c with PageRoot r _ => Some r | HostNode _ => None end) (container w).

(** The page roots in the container after the calls of a log, starting
    from none. *)
Definition mountedAfter (l : list Event) : list NodeId :=
  foldl (λ acc e,
           match e with
           | EvClear => []
           | EvAppend _ el => acc ++ [el]
           | _ => acc
           end) [] l.

(** The route table with each reference replaced by the instance it
    points to. *)
Definition routeTable (w : World) : gmap string St :=
  omap (λ r, heap w !! r) (routes w).

(** What a reader of the page sees: the mounted page, the container and
    the document title. *)
Definition mountState (w : World) : option ref * list Child * string :=
  (currentPage w, container w, title w).

(** The state a resolution leaves behind when it mounts [pg], whose
    instance is [st] once the outgoing page has been destroyed: [st] is
    asked for its element and then for its title. *)
Definition heapAfterDestroy (w : World) : list St :=
  match currentPage w with
  | Some c => alter page_destroy c (heap w)
  | None => heap w
  end.

Definition destroyCalls (w : World) : list Event :=
  match currentPage w with
  | Some c => [EvDestroy c]
  | None => []
  end.

Definition mounting (pg : ref) (st : St) (w : World) : World :=
  let '(el, st') := page_create (nextNode w) st in
  let t := page_getTitle st' in
  {| routes := routes w;
     container := [PageRoot pg el];
     currentPage := Some pg;
     heap := <[pg := st']> (heapAfterDestroy w);
     locationOrigin := locationOrigin w;
     locationPathname := locationPathname w;
     history := history w;
     title := t;
     scroll := (0, 0)%Z;
     navLinks := navLinks w;
     nextNode := S (nextNode w);
     log := log w ++ destroyCalls w
            ++ [EvClear; EvCreate pg el; EvAppend pg el; EvSetTitle t; EvScrollTo 0 0] |}.

(** [pg] is mounted, with root [el] and instance state [st]: its root is
    the container's only child, it is the current page, and the document
    title is its title. *)
Definition mountedExactly (pg : ref) (el : NodeId) (st : St) (w : World) : Prop :=
  container w = [PageRoot pg el]
  ∧ mountedPages w = [pg]
  ∧ currentPage w = Some pg
  ∧ heap w !! pg = Some st
  ∧ title w = page_getTitle st.

(** Calls that leave the container alone. *)
Definition quiet (e : Event) : bool :=
  match e with
  | EvClear | EvAppend _ _ => false
  | _ => true
  end.

(** At no point of the log [l] did the container hold two page roots. *)
Definition logOk (l : list Event) : Prop :=
  ∀ n, (length (mountedAfter (take n l)) ≤ 1)%nat.

(** The invariant of the router: references point into the heap, the
    container holds the root of the current page and of no other, and at
    no point of the log did the container hold two page roots. *)
Definition wf (w : World) : Prop :=
  map_Forall (λ _ r, r < length (heap w)) (routes w)
  ∧ match currentPage w with
    | Some r => r < length (heap w) ∧ ∃ el, container w = [PageRoot r el]
    | None => mountedPages w = []
    end
  ∧ logOk (log w).

(** Whether the default action of a click has been prevented. *)
Definition isPreventDefault (e : Event) : bool :=
  match e with EvPreventDefault => true | _ => false end.

Definition defaultPrevented (before after : World) : bool :=
  existsb isPreventDefault (drop (length (log before)) (log after)).

End WithPages.

Arguments World : clear implicits.
Arguments Event : clear implicits.
Arguments Action : clear implicits.
Arguments M : clear implicits.

End Router.

(** ** [main.ts] *)

Module Main.

(** A stand-in for the browser's URL resolution that is exact on the
    references used below: an absolute path becomes the pathname, any other
    reference is resolved against the root. *)
Definition resolveAtRoot (cur url : string) : string :=
  if Js.startsWith url "/" then url else "/" +:+ url.

(** The document the script runs in: an empty [#app], no nav links. *)
Definition document (path : string) : Router.World AppPageClass AppPage :=
  Router.newRouter "https://example.com" path EmptyString [] [].

(** The body of the 'DOMContentLoaded' listener. *)
Definition boot : list (Router.Action AppPageClass) :=
  [Router.AddRoute "/" HomePageClass;
   Router.AddRoute "*" NotFoundPageClass;
   Router.Start].

Definition booted (path : string) : Router.World AppPageClass AppPage :=
  Router.run resolveAtRoot boot (document path).

(** Links a page at [https://example.com] may contain. *)

(** [<a href="/">], the link on the 404 page. *)
Definition homeLink : Anchor :=
  {| target := Some (Url.https "example.com" "/");
     datasetExternal := None |}.

(** [<a href="https://example.com.evil.org/login">]: another host, whose
    name begins with this one. *)
Definition lookalikeLink : Anchor :=
  {| target := Some (Url.https "example.com.evil.org" "/login");
     datasetExternal := None |}.

(** [<a href="https://guest@example.com/about">]: this host, with
    credentials. *)
Definition credentialedLink : Anchor :=
  {| target := Some (Url.withUserinfo "guest" (Url.https "example.com" "/about"));
     datasetExternal := None |}.

(** [<a href="/docs" data-external>]: the marker attribute without a
    value. *)
Definition bareMarkerLink : Anchor :=
  {| target := Some (Url.https "example.com" "/docs");
     datasetExternal := Some EmptyString |}.

(** [<a href="https://example.org/" >] and
    [<a href="/files/report.pdf" data-external="true">]. *)
Definition foreignLink : Anchor :=
  {| target := Some (Url.https "example.org" "/");
     datasetExternal := None |}.

Definition markedLink : Anchor :=
  {| target := Some (Url.https "example.com" "/files/report.pdf");
     datasetExternal := Some "true" |}.

Definition clickOn (a : Anchor) : MouseEvent := {| closestAnchor := Some a |}.

End Main.

(** ** Observations for the further properties *)

Module View.

Section Scene.

Context {Cb : Type}.

(** What a toggle's member currently shows: the [visible] flag of a scene
    member, or whether an overlay element's [style.display] is ['block'];
    nothing when the member is absent. *)
Definition shown (op : Scene3D.Toggle) (s : Scene3D.t Cb) : option bool :=
  let flag := fmap (M:=option) Scene3D.visible in
  let block := fmap (M:=option) (λ o, String.eqb (Scene3D.display o) "block") in
  match op with
  | Scene3D.PoleVisibility => flag (Scene3D.earthPole s)
  | Scene3D.EquatorVisibility => flag (Scene3D.equatorLine s)
  | Scene3D.LongitudeLinesVisibility => flag (Scene3D.longitudeLinesGroup s)
  | Scene3D.LatitudeLinesVisibility => flag (Scene3D.latitudeLinesGroup s)
  | Scene3D.StatsVisibility => block (Scene3D.stats s)
  | Scene3D.RendererInfoVisibility => block (Scene3D.rendererInfoDiv s)
  | Scene3D.PrimeMeridianVisibility => flag (Scene3D.primeMeridianGroup s)
  | Scene3D.AntimeridianVisibility => flag (Scene3D.antimeridianLine s)
  end.

(** Every pending timer is the one the scene remembers in
    [inactivityTimeoutId]. *)
Definition timersTracked (s : Scene3D.t Cb) (tm : Js.Timers) : Prop :=
  Forall (λ id, Scene3D.inactivityTimeoutId s = Some id) (Js.pendingTimers tm).

(** The scene and the timer table after a sequence of events. *)
Definition after (evs : list Scene3D.ControlEvent) (st : Scene3D.t Cb * Js.Timers)
    : Scene3D.t Cb * Js.Timers :=
  foldl (λ st e, (Scene3D.deliver e st).1) st evs.

End Scene.

(** What the scene of a home page shows for the member paired with a
    checkbox. *)
Definition boxShown (box : HomePage.CheckboxId) (p : HomePage.t) : option bool :=
  HomePage.scene p ≫= shown (HomePage.toggleFor box).

(** What holds of a home page from [create] to [destroy], beyond
    [HomePage.wired_up]: the scene shows what the checkboxes say, the hint
    overlay has started to fade exactly if the first interaction has
    happened, is not hidden before that and has at most one 'transitionend'
    listener. *)
Definition healthy (p : HomePage.t) : Prop :=
  ∃ el sc,
    HomePage.element p = Some el ∧ HomePage.scene p = Some sc
    ∧ (∀ box, HomePage.changeListeners (HomePage.getCheckbox box (HomePage.checkboxes el))
              = [HomePage.ApplyToggle (HomePage.toggleFor box) box])
    ∧ (∀ box, shown (HomePage.toggleFor box) sc
              = Some (HomePage.checked (HomePage.getCheckbox box (HomePage.checkboxes el))))
    ∧ (let o := HomePage.canvasOverlay el in
       HomePage.opacity o = (if Scene3D.firstInteractionDone sc then "0" else EmptyString)
       ∧ (HomePage.transitionendListeners o ≤ 1)%nat
       ∧ (Scene3D.firstInteractionDone sc = false →
          HomePage.transitionendListeners o = 0 ∧ HomePage.display o = EmptyString)).

(** Both sidebar buttons have their listener, and each icon is the one
    the listener would write for the sidebar's current state. *)
Definition sidebarsConsistent (p : HomePage.t) : Prop :=
  ∃ el, HomePage.element p = Some el
    ∧ HomePage.wired (HomePage.leftSidebar el) = true
    ∧ HomePage.wired (HomePage.rightSidebar el) = true
    ∧ HomePage.icon (HomePage.leftSidebar el)
      = (if HomePage.collapsed (HomePage.leftSidebar el) then "<" else ">")
    ∧ HomePage.icon (HomePage.rightSidebar el)
      = (if HomePage.collapsed (HomePage.rightSidebar el) then ">" else "<").

(** The only timer that can be pending is the one the page's scene
    remembers. *)
Definition timersOwned (p : HomePage.t) : Prop :=
  ∃ sc, HomePage.scene p = Some sc ∧ timersTracked sc (HomePage.timers p).

Section Log.

Context {Cls : Type}.

(** How often [create] and [destroy] were called on the instance [r]. *)
Definition createsOf (r : Router.ref) (l : list (Router.Event Cls)) : nat :=
  length (List.filter
            (λ e, match e with
                  | Router.EvCreate r' _ => bool_decide (r' = r)
                  | _ => false
                  end) l).

Definition destroysOf (r : Router.ref) (l : list (Router.Event Cls)) : nat :=
  length (List.filter
            (λ e, match e with
                  | Router.EvDestroy r' => bool_decide (r' = r)
                  | _ => false
                  end) l).

(** The root elements returned by the calls of [create], in order. *)
Definition createdNodes (l : list (Router.Event Cls)) : list NodeId :=
  omap (λ e, match e with Router.EvCreate _ el => Some el | _ => None end) l.

Definition isAddRoute (a : Router.Action Cls) : bool :=
  match a with Router.AddRoute _ _ => true | _ => false end.

(** Calls other than [create] and [destroy]. *)
Definition calm (e : Router.Event Cls) : bool :=
  match e with
  | Router.EvCreate _ _ | Router.EvDestroy _ => false
  | _ => true
  end.

(** Whether [r] is the current page, as a number. *)
Definition isCurrent (r : Router.ref) (cur : option Router.ref) : nat :=
  if bool_decide (cur = Some r) then 1 else 0.


End Log.

(** The calls of one mount of [pg] in the world [w], with root [el] and
    title [t]. *)
Definition mountCalls {Cls St : Type} (w : Router.World Cls St)
    (pg : Router.ref) (el : NodeId) (t : string) : list (Router.Event Cls) :=
  Router.destroyCalls w
  ++ [Router.EvClear; Router.EvCreate pg el; Router.EvAppend pg el;
      Router.EvSetTitle t; Router.EvScrollTo 0 0].

(** The state of the application of [main.ts] between actions: the route
    table and the two instances are those of the bootstrap, and an
    instance holds its element (and the home page its scene) exactly while
    it is the current page. *)
Definition appState (w : Router.World AppPageClass AppPage) : Prop :=
  Router.routes w = <["*" := 1]> (<["/" := 0]> ∅)
  ∧ ∃ hp np,
      Router.heap w = [Home hp; NotFound np]
      ∧ (Router.currentPage w = None ∨ Router.currentPage w = Some 0
         ∨ Router.currentPage w = Some 1)
      ∧ (is_Some (HomePage.scene hp) ↔ Router.currentPage w = Some 0)
      ∧ (is_Some (HomePage.element hp) ↔ Router.currentPage w = Some 0)
      ∧ (is_Some (NotFoundPage.element np) ↔ Router.currentPage w = Some 1).

(** The page that belongs to a pathname in that application. *)
Definition appPage (path : string) : Router.ref :=
  if bool_decide (path = "/") then 0 else 1.

End View.

(** * Properties *)

(** ** Scene controller *)

Section Scene3DFacts.

Context {Cb : Type}.
Implicit Types (s : Scene3D.t Cb) (tm : Js.Timers) (evs : list Scene3D.ControlEvent).

(** Once the flag is set, no handler calls the callback again, and the
    flag stays set. *)
Lemma deliver_done e s tm :
  Scene3D.firstInteractionDone s = true →
  ∃ s' tm', Scene3D.deliver e (s, tm) = (s', tm', [])
            ∧ Scene3D.firstInteractionDone s' = true.
Proof.
  intros Hdone. destruct s; simpl in Hdone; subst.
  destruct e as [| |id]; simpl.
  - destruct controlsListening; simpl; [|eauto].
    unfold Scene3D.handleControlStart; simpl.
    destruct inactivityTimeoutId; simpl; eauto.
  - destruct controlsListening; simpl; [|eauto].
    unfold Scene3D.handleControlEnd; simpl.
    destruct autoRotateAllowed; simpl; eauto.
  - case_bool_decide; simpl; eauto.
Qed.

Lemma invocations_done evs s tm :
  Scene3D.firstInteractionDone s = true →
  Scene3D.invocations evs (s, tm) = (λ _, []) <$> evs.
Proof.
  revert s tm. induction evs as [|e evs IH]; intros s tm Hdone; [done|].
  destruct (deliver_done e s tm Hdone) as (s' & tm' & Hd & Hdone').
  cbn [Scene3D.invocations fmap list_fmap]. rewrite Hd. f_equal. by apply IH.
Qed.

(** A scene without a callback never calls one. *)
Lemma deliver_no_callback e s tm :
  Scene3D.onFirstInteraction s = None →
  ∃ s' tm', Scene3D.deliver e (s, tm) = (s', tm', [])
            ∧ Scene3D.onFirstInteraction s' = None.
Proof.
  intros Hcb. destruct s; simpl in Hcb; subst.
  destruct e as [| |id]; simpl.
  - destruct controlsListening; simpl; [|eauto].
    unfold Scene3D.handleControlStart; simpl.
    destruct inactivityTimeoutId, firstInteractionDone; simpl; eauto.
  - destruct controlsListening; simpl; [|eauto].
    unfold Scene3D.handleControlEnd; simpl.
    destruct autoRotateAllowed; simpl; eauto.
  - case_bool_decide; simpl; eauto.
Qed.

(** Before the first 'controlstart', an event leaves the callback armed
    and calls nothing. *)
Lemma deliver_armed e s tm cb :
  e ≠ Scene3D.ControlStart →
  Scene3D.onFirstInteraction s = Some cb →
  Scene3D.firstInteractionDone s = false →
  Scene3D.controlsListening s = true →
  ∃ s' tm', Scene3D.deliver e (s, tm) = (s', tm', [])
            ∧ Scene3D.onFirstInteraction s' = Some cb
            ∧ Scene3D.firstInteractionDone s' = false
            ∧ Scene3D.controlsListening s' = true.
Proof.
  intros Hne Hcb Hdone Hl. destruct s; simpl in *; subst.
  destruct e as [| |id]; [done| |]; simpl.
  - unfold Scene3D.handleControlEnd; simpl.
    destruct autoRotateAllowed; simpl; eauto 10.
  - case_bool_decide; simpl; eauto 10.
Qed.

(** The first 'controlstart' calls the callback and sets the flag. *)
Lemma deliver_first_start s tm cb :
  Scene3D.onFirstInteraction s = Some cb →
  Scene3D.firstInteractionDone s = false →
  Scene3D.controlsListening s = true →
  ∃ s' tm', Scene3D.deliver Scene3D.ControlStart (s, tm) = (s', tm', [cb])
            ∧ Scene3D.firstInteractionDone s' = true.
Proof.
  intros Hcb Hdone Hl. destruct s; simpl in *; subst.
  unfold Scene3D.handleControlStart; simpl.
  destruct inactivityTimeoutId; simpl; eauto.
Qed.

Lemma invocations_armed pre post s tm cb :
  Scene3D.ControlStart ∉ pre →
  Scene3D.onFirstInteraction s = Some cb →
  Scene3D.firstInteractionDone s = false →
  Scene3D.controlsListening s = true →
  Scene3D.invocations (pre ++ Scene3D.ControlStart :: post) (s, tm)
  = ((λ _, []) <$> pre) ++ [cb] :: ((λ _, []) <$> post).
Proof.
  revert s tm. induction pre as [|e pre IH]; intros s tm Hpre Hcb Hdone Hl.
  - destruct (deliver_first_start s tm cb Hcb Hdone Hl) as (s' & tm' & Hd & Hdone').
    cbn [app Scene3D.invocations fmap list_fmap]. rewrite Hd.
    f_equal. by apply invocations_done.
  - apply not_elem_of_cons in Hpre as [Hne Hpre].
    destruct (deliver_armed e s tm cb) as (s' & tm' & Hd & ? & ? & ?); [done..|].
    cbn [app Scene3D.invocations fmap list_fmap]. rewrite Hd.
    f_equal. by apply IH.
Qed.

Lemma invocations_never_started evs s tm cb :
  Scene3D.ControlStart ∉ evs →
  Scene3D.onFirstInteraction s = Some cb →
  Scene3D.firstInteractionDone s = false →
  Scene3D.controlsListening s = true →
  Scene3D.invocations evs (s, tm) = (λ _, []) <$> evs.
Proof.
  revert s tm. induction evs as [|e evs IH]; intros s tm Hevs Hcb Hdone Hl; [done|].
  apply not_elem_of_cons in Hevs as [Hne Hevs].
  destruct (deliver_armed e s tm cb) as (s' & tm' & Hd & ? & ? & ?); [done..|].
  cbn [Scene3D.invocations fmap list_fmap]. rewrite Hd. f_equal. by apply IH.
Qed.

Lemma concat_no_calls {A B} (l : list A) :
  concat ((λ _, @nil B) <$> l) = [].
Proof. induction l; simpl; auto. Qed.

(** Every sequence either contains no 'controlstart' or splits at its
    first one. *)
Lemma first_control_start evs :
  Scene3D.ControlStart ∉ evs
  ∨ ∃ pre post, evs = pre ++ Scene3D.ControlStart :: post ∧ Scene3D.ControlStart ∉ pre.
Proof.
  induction evs as [|e evs IH]; [left; apply not_elem_of_nil|].
  destruct e as [| |id].
  - right. exists [], evs. split; [done|apply not_elem_of_nil].
  - destruct IH as [IH|(pre & post & -> & Hpre)].
    + left. apply not_elem_of_cons. done.
    + right. exists (Scene3D.ControlEnd :: pre), post. split; [done|].
      apply not_elem_of_cons. done.
  - destruct IH as [IH|(pre & post & -> & Hpre)].
    + left. apply not_elem_of_cons. done.
    + right. exists (Scene3D.TimerFired id :: pre), post. split; [done|].
      apply not_elem_of_cons. done.
Qed.

(** Once [dispose] has removed the listeners, control events reach no
    handler. *)
Lemma deliver_not_listening e s tm :
  Scene3D.controlsListening s = false →
  ∃ s' tm', Scene3D.deliver e (s, tm) = (s', tm', [])
            ∧ Scene3D.controlsListening s' = false.
Proof.
  intros Hl. destruct s; simpl in Hl; subst.
  destruct e as [| |id]; simpl; eauto.
  case_bool_decide; simpl; eauto.
Qed.

Lemma invocations_not_listening evs s tm :
  Scene3D.controlsListening s = false →
  Scene3D.invocations evs (s, tm) = (λ _, []) <$> evs.
Proof.
  revert s tm. induction evs as [|e evs IH]; intros s tm Hl; [done|].
  destruct (deliver_not_listening e s tm Hl) as (s' & tm' & Hd & Hl').
  cbn [Scene3D.invocations fmap list_fmap]. rewrite Hd. f_equal. by apply IH.
Qed.

Lemma invocations_no_callback evs s tm :
  Scene3D.onFirstInteraction s = None →
  Scene3D.invocations evs (s, tm) = (λ _, []) <$> evs.
Proof.
  revert s tm. induction evs as [|e evs IH]; intros s tm Hcb; [done|].
  destruct (deliver_no_callback e s tm Hcb) as (s' & tm' & Hd & Hcb').
  cbn [Scene3D.invocations fmap list_fmap]. rewrite Hd. f_equal. by apply IH.
Qed.

(** The constructor leaves the callback armed. *)
Lemma construct_armed (cb : Cb) :
  let s := Scene3D.construct (Some cb) in
  Scene3D.onFirstInteraction s = Some cb
  ∧ Scene3D.firstInteractionDone s = false
  ∧ Scene3D.controlsListening s = true.
Proof. done. Qed.

(** C8: over any sequence of control events, from any scene state, the
    [onFirstInteraction] callback is called at most once; and for a scene
    that has a callback, has its control listeners installed and has not
    been interacted with (as the constructor leaves it), the call happens
    during the first 'controlstart' of the sequence and during no other
    event, and not at all when the sequence has no 'controlstart'. *)
Theorem first_interaction_fires_once s tm evs :
  (length (concat (Scene3D.invocations evs (s, tm))) ≤ 1)%nat
  ∧ ∀ cb,
      Scene3D.onFirstInteraction s = Some cb →
      Scene3D.firstInteractionDone s = false →
      Scene3D.controlsListening s = true →
      (∀ pre post,
         evs = pre ++ Scene3D.ControlStart :: post →
         Scene3D.ControlStart ∉ pre →
         Scene3D.invocations evs (s, tm)
         = ((λ _, []) <$> pre) ++ [cb] :: ((λ _, []) <$> post))
      ∧ (Scene3D.ControlStart ∉ evs →
         concat (Scene3D.invocations evs (s, tm)) = []).
Proof.
  split.
  - destruct (Scene3D.onFirstInteraction s) as [cb|] eqn:Hcb;
      [|rewrite invocations_no_callback, concat_no_calls by done; simpl; lia].
    destruct (Scene3D.firstInteractionDone s) eqn:Hdone;
      [rewrite invocations_done, concat_no_calls by done; simpl; lia|].
    destruct (Scene3D.controlsListening s) eqn:Hl;
      [|rewrite invocations_not_listening, concat_no_calls by done; simpl; lia].
    destruct (first_control_start evs) as [Hno|(pre & post & -> & Hpre)].
    + rewrite (invocations_never_started _ _ _ cb) by done.
      rewrite concat_no_calls. simpl. lia.
    + rewrite (invocations_armed _ _ _ _ cb) by done.
      rewrite concat_app, concat_cons, !concat_no_calls. simpl. lia.
  - intros cb Hcb Hdone Hl. split.
    + intros pre post -> Hpre. by apply invocations_armed.
    + intros Hno. rewrite (invocations_never_started _ _ _ cb) by done.
      apply concat_no_calls.
Qed.

(** C10: each of the eight visibility toggles is a function defined on
    every scene state, and when the member it guards on is absent the call
    returns the state it was given. *)
Theorem toggle_absent_target_noop (op : Scene3D.Toggle) (visible : bool) s :
  Scene3D.targetPresent op s = false →
  Scene3D.toggle op visible s = s.
Proof.
  intros Habs. destruct s, op; simpl in *;
    match goal with
    | H : bool_decide (is_Some ?o) = false |- _ =>
        destruct o; [by rewrite bool_decide_eq_false in H; destruct H; eauto|]
    end; reflexivity.
Qed.

(** Right after the constructor, before [initialize], the six toggles
    for scene members have nothing to act on. *)
Lemma targets_absent_before_initialize (cb : option Cb) op :
  op ≠ Scene3D.StatsVisibility → op ≠ Scene3D.RendererInfoVisibility →
  Scene3D.targetPresent op (Scene3D.construct cb) = false.
Proof. destruct op; intros ??; done. Qed.

(** After [dispose] has removed the two overlay elements from the
    container, their toggles have nothing to act on either. *)
Lemma overlays_absent_after_dispose s tm o1 o2 :
  Scene3D.stats s = Some o1 → Scene3D.attached o1 = true →
  Scene3D.rendererInfoDiv s = Some o2 → Scene3D.attached o2 = true →
  Scene3D.targetPresent Scene3D.StatsVisibility (Scene3D.dispose s tm).1 = false
  ∧ Scene3D.targetPresent Scene3D.RendererInfoVisibility (Scene3D.dispose s tm).1 = false.
Proof.
  intros H1 Ha1 H2 Ha2. destruct s; simpl in *; subst.
  unfold Scene3D.dispose; simpl.
  destruct inactivityTimeoutId; simpl; rewrite Ha1; simpl; rewrite Ha2; done.
Qed.

End Scene3DFacts.

Lemma first_interaction_fires_once_witness :
  let s := Scene3D.construct (Some HomePage.HandleFirstInteraction) in
  Scene3D.invocations
    [Scene3D.ControlEnd; Scene3D.ControlStart; Scene3D.ControlEnd;
     Scene3D.TimerFired 1; Scene3D.ControlStart]
    (s, Js.noTimers)
  = [[]; [HomePage.HandleFirstInteraction]; []; []; []].
Proof.
  intros s.
  apply (proj1 (proj2 (first_interaction_fires_once s Js.noTimers _)
                  HomePage.HandleFirstInteraction eq_refl eq_refl eq_refl)
           [Scene3D.ControlEnd]
           [Scene3D.ControlEnd; Scene3D.TimerFired 1; Scene3D.ControlStart]).
  - reflexivity.
  - apply (bool_decide_eq_true_1 (Scene3D.ControlStart ∉ [Scene3D.ControlEnd])).
    vm_compute. reflexivity.
Defined.

Lemma toggle_absent_target_noop_witness :
  Scene3D.toggle Scene3D.PoleVisibility false
    (Scene3D.construct (Some HomePage.HandleFirstInteraction))
  = Scene3D.construct (Some HomePage.HandleFirstInteraction).
Proof.
  apply (toggle_absent_target_noop Scene3D.PoleVisibility false). reflexivity.
Defined.

(** ** Home page *)

Section HomePageFacts.

Import HomePage.

Lemma create_wired_up fresh p0 : wired_up (create fresh p0).2.
Proof.
  destruct p0 as [el0 sc0 tm0 calls0]. unfold create, wired_up. simpl.
  eexists _, _. split_and!; [reflexivity..|]. intros []; reflexivity.
Qed.

(** The calls [create] makes once the listeners are in place: one per
    checkbox, with the state the template gives that checkbox. *)
Lemma create_initial_calls fresh p0 :
  sceneCalls (create fresh p0).2
  = sceneCalls p0
    ++ ((λ box, (toggleFor box,
                 checked (getCheckbox box (checkboxes (template fresh)))))
          <$> allCheckboxes).
Proof.
  destruct p0 as [el0 sc0 tm0 calls0]. unfold create. simpl.
  by rewrite <- !app_assoc.
Qed.

Lemma callToggle_some op v p sc :
  scene p = Some sc →
  callToggle op v p
  = mkHomePage (element p) (Some (Scene3D.toggle op v sc)) (timers p)
      (sceneCalls p ++ [(op, v)]).
Proof. destruct p; simpl. intros ->. reflexivity. Qed.

Lemma dispatch_change box p el sc :
  element p = Some el → scene p = Some sc →
  changeListeners (getCheckbox box (checkboxes el)) = [ApplyToggle (toggleFor box) box] →
  let b := getCheckbox box (checkboxes el) in
  let b' := {| checked := negb (checked b); changeListeners := changeListeners b |} in
  dispatch (Change box) p
  = mkHomePage (Some (set_checkboxes (setCheckbox box b' (checkboxes el)) el))
      (Some (Scene3D.toggle (toggleFor box) (negb (checked b)) sc))
      (timers p)
      (sceneCalls p ++ [(toggleFor box, negb (checked b))]).
Proof.
  destruct p as [? ? tm calls]; simpl. intros -> -> Hl. rewrite Hl. simpl.
  destruct el as [n c boxes l r o], boxes, box; reflexivity.
Qed.

Lemma getCheckbox_setCheckbox box box' b c :
  getCheckbox box (setCheckbox box' b c)
  = if decide (box = box') then b else getCheckbox box c.
Proof. destruct c, box, box'; reflexivity. Qed.

Lemma dispatch_wired_up e p : wired_up p → wired_up (dispatch e p).
Proof.
  intros (el & sc & Hel & Hsc & Hl). destruct e as [box|onLeft|ce|].
  - rewrite (dispatch_change box p el sc Hel Hsc (Hl box)).
    eexists _, _. split_and!; [reflexivity..|]. intros box0.
    destruct el; simpl in *. rewrite getCheckbox_setCheckbox.
    case_decide; subst; simpl; apply Hl.
  - destruct p; simpl in *; subst. eexists _, sc. split_and!; [reflexivity..|].
    intros box0. specialize (Hl box0).
    unfold clickSidebarButton.
    destruct el, onLeft; simpl in *;
      repeat match goal with |- context [if ?b then _ else _] => destruct b end;
      simpl; exact Hl.
  - destruct p as [? ? tm calls]; cbn [element scene] in *; subst.
    unfold dispatch; cbn [scene timers].
    destruct (Scene3D.deliver ce (sc, tm)) as [[sc' tm'] cbs] eqn:Hd.
    assert (Hcb : ∀ cbs q, wired_up q → wired_up (foldl (λ p cb, runCallback cb p) q cbs)).
    { clear. induction cbs as [|cb cbs IH]; intros q Hq; [done|].
      simpl. apply IH. destruct Hq as (el & sc & Hel & Hsc & Hl).
      destruct q, cb; simpl in *; subst. eexists _, sc.
      split_and!; [reflexivity..|]. intros box0. destruct el; apply Hl. }
    apply Hcb. eexists el, sc'. split_and!; done.
  - destruct p; simpl in *; subst. case_decide.
    + eexists el, sc. done.
    + eexists _, sc. split_and!; [reflexivity..|]. intros box0. destruct el; apply Hl.
Qed.

Lemma dispatchAll_wired_up evs p : wired_up p → wired_up (dispatchAll evs p).
Proof.
  revert p. induction evs as [|e evs IH]; intros p Hp; [done|].
  apply IH, dispatch_wired_up, Hp.
Qed.

(** C7: on a home page that [create] has built and that has since seen
    any sequence of user and browser events, a change event that takes a
    checkbox from checked to unchecked makes exactly one call on the scene
    controller, the toggle paired with that checkbox with argument [false];
    and the calls [create] itself makes after wiring the listeners are one
    per checkbox, each with the checkbox's initial checked state. *)
Theorem checkbox_change_calls_toggle fresh p0 evs box :
  let mounted := (create fresh p0).2 in
  let p := dispatchAll evs mounted in
  sceneCalls mounted
  = sceneCalls p0
    ++ ((λ box, (toggleFor box,
                 checked (getCheckbox box (checkboxes (template fresh)))))
          <$> allCheckboxes)
  ∧ (isChecked box p = Some true →
     sceneCalls (dispatch (Change box) p) = sceneCalls p ++ [(toggleFor box, false)]
     ∧ isChecked box (dispatch (Change box) p) = Some false).
Proof.
  intros mounted p. split; [apply create_initial_calls|].
  intros Hchk.
  destruct (dispatchAll_wired_up evs mounted (create_wired_up fresh p0))
    as (el & sc & Hel & Hsc & Hl).
  fold p in Hel, Hsc.
  rewrite (dispatch_change box p el sc Hel Hsc (Hl box)).
  unfold isChecked in *. rewrite Hel in Hchk. simpl in *.
  injection Hchk as Hchk. rewrite Hchk. split; [done|].
  destruct el; simpl. by rewrite getCheckbox_setCheckbox, decide_True.
Qed.

End HomePageFacts.

Lemma checkbox_change_calls_toggle_witness :
  let p := HomePage.dispatchAll
             [HomePage.Control Scene3D.ControlStart; HomePage.Change HomePage.ShowStats;
              HomePage.SidebarButtonClick true]
             (HomePage.create 0 HomePage.construct).2 in
  HomePage.sceneCalls (HomePage.dispatch (HomePage.Change HomePage.ShowEquator) p)
  = HomePage.sceneCalls p ++ [(Scene3D.EquatorVisibility, false)].
Proof.
  intros p.
  exact (proj1 (proj2 (checkbox_change_calls_toggle 0 HomePage.construct
                         [HomePage.Control Scene3D.ControlStart;
                          HomePage.Change HomePage.ShowStats;
                          HomePage.SidebarButtonClick true]
                         HomePage.ShowEquator) eq_refl)).
Defined.

(** ** Router *)

Section RouterFacts.

Import Router.

Context {Cls St : Type} `{!Page Cls St}.
Variable resolvePathname : string → string → string.

Implicit Types (w : World Cls St) (r pg c : ref) (st : St) (l es : list (Event Cls)).

(** Unfolds the monadic plumbing of the router's primitives. *)
Ltac run_m :=
  cbv [mbind M_bind mret M_ret get modify emit exec callDestroy clearContainer
       appendChild setTitle scrollTo pushState callGetTitle new];
  cbn [routes container currentPage heap locationOrigin locationPathname history
       title scroll navLinks nextNode log
       set_routes set_container set_currentPage set_heap set_locationPathname
       set_history set_title set_scroll set_navLinks set_nextNode set_log fst snd].

(** *** What one resolution does *)

Lemma handleRouteChange_unresolved w :
  resolves w = None → Router.handleRouteChange w = (tt, w).
Proof.
  unfold resolves, resolvesAt, Router.handleRouteChange. intros Hr. run_m.
  destruct (routes w !! locationPathname w); [done|]. by rewrite Hr.
Qed.

Lemma handleRouteChange_resolved w pg st :
  resolves w = Some pg → heapAfterDestroy w !! pg = Some st →
  Router.handleRouteChange w = (tt, mounting pg st w).
Proof.
  unfold resolves, resolvesAt, Router.handleRouteChange, mounting, heapAfterDestroy, destroyCalls.
  intros Hr Hst.
  destruct w as [rt ct cur hp lo lp hi ti sc nl nn lg]; simpl in Hr, Hst; run_m.
  assert (Hpage : ∀ X (k : option ref → World Cls St → X) w0,
            (let '(a, w') := match rt !! lp with
                             | Some _ => λ w, (rt !! lp, w)
                             | None => λ w, (routes w !! "*", w)
                             end w0 in k a w')
            = k (match rt !! lp with Some r => Some r | None => routes w0 !! "*" end) w0).
  { intros X k w0. by destruct (rt !! lp). }
  rewrite Hpage; clear Hpage; cbn [routes]. rewrite Hr.
  destruct cur as [c|]; run_m; unfold callCreate; run_m; rewrite Hst;
    destruct (page_create nn st) as [el st'] eqn:Hc; run_m;
    (rewrite list_lookup_insert_eq by (by eapply lookup_lt_Some));
    simpl; by rewrite <- !app_assoc.
Qed.

Lemma heapAfterDestroy_length w : length (heapAfterDestroy w) = length (heap w).
Proof. unfold heapAfterDestroy. destruct (currentPage w); [apply length_alter|done]. Qed.

(** *** The log never shows two page roots in the container *)

Lemma mountedAfter_app l es :
  mountedAfter (l ++ es)
  = foldl (λ acc e, match e with
                    | EvClear => []
                    | EvAppend _ el => acc ++ [el]
                    | _ => acc
                    end) (mountedAfter l) es.
Proof. unfold mountedAfter. apply foldl_app. Qed.

Lemma logOk_full l : logOk l → (length (mountedAfter l) ≤ 1)%nat.
Proof. intros Hl. specialize (Hl (length l)). by rewrite firstn_all in Hl. Qed.

Lemma logOk_app l es :
  logOk l →
  (∀ k, (length (mountedAfter (l ++ take k es)) ≤ 1)%nat) →
  logOk (l ++ es).
Proof.
  intros Hl Hes n. rewrite take_app.
  destruct (decide (n ≤ length l)%nat) as [Hn|Hn].
  - replace (n - length l) with 0 by lia. rewrite take_0, app_nil_r. apply Hl.
  - rewrite (take_ge l) by lia. apply Hes.
Qed.

Lemma mountedAfter_quiet l es :
  forallb quiet es = true → mountedAfter (l ++ es) = mountedAfter l.
Proof.
  rewrite mountedAfter_app. generalize (mountedAfter l).
  induction es as [|e es IH]; intros acc Hq; [done|].
  simpl in Hq. apply andb_prop in Hq as [He Hq].
  simpl. destruct e; try discriminate He; by apply IH.
Qed.

Lemma logOk_quiet l es : logOk l → forallb quiet es = true → logOk (l ++ es).
Proof.
  intros Hl Hq. apply logOk_app; [done|]. intros k.
  rewrite mountedAfter_quiet; [by apply logOk_full|].
  rewrite <- (take_drop k es), forallb_app in Hq.
  by apply andb_prop in Hq as [? _].
Qed.

Lemma logOk_mounting l es pg el t :
  logOk l → forallb quiet es = true →
  logOk (l ++ es ++ [EvClear; EvCreate pg el; EvAppend pg el; EvSetTitle t; EvScrollTo 0 0]).
Proof.
  intros Hl Hq. rewrite app_assoc.
  apply logOk_app; [by apply logOk_quiet|]. intros k.
  rewrite mountedAfter_app.
  pose proof (logOk_full _ (logOk_quiet _ _ Hl Hq)) as Hlen.
  do 6 (destruct k as [|k]; [simpl; lia|]). simpl. lia.
Qed.

(** *** The invariant *)

Lemma wf_newRouter origin path docTitle links children :
  wf (newRouter (Cls:=Cls) (St:=St) origin path docTitle links children).
Proof.
  split_and!; simpl.
  - apply map_Forall_empty.
  - unfold mountedPages, newRouter; cbn [container].
    induction children as [|x xs IH]; [done|exact IH].
  - intros n. rewrite take_nil. simpl. lia.
Qed.

(** A step that keeps the router's own fields and the heap, and adds only
    quiet calls to the log, keeps the invariant. *)
Lemma wf_frame w w' es :
  wf w →
  routes w' = routes w → container w' = container w →
  currentPage w' = currentPage w → heap w' = heap w →
  log w' = log w ++ es → forallb quiet es = true →
  wf w'.
Proof.
  intros (Hr & Hc & Hl) Er Ec Ecur Eh El Hq.
  unfold wf, mountedPages in *. rewrite Er, Ec, Ecur, Eh, El.
  split_and!; [done..|]. by apply logOk_quiet.
Qed.

Lemma wf_addRoute w p cls : wf w → wf (exec (addRoute p cls) w).
Proof.
  intros (Hr & Hc & Hl). destruct w as [rt ct cur hp lo lp hi ti sc nl nn lg].
  unfold addRoute, wf, mountedPages in *; run_m. simpl in *.
  rewrite length_app. simpl. split_and!.
  - apply map_Forall_insert_2; [lia|].
    eapply map_Forall_impl; [exact Hr|]. simpl. intros; lia.
  - destruct cur as [c|]; [|done]. destruct Hc as [? ?]. split; [lia|done].
  - by apply (logOk_quiet lg [_]).
Qed.

Lemma wf_resolves w pg :
  wf w → resolves w = Some pg → is_Some (heapAfterDestroy w !! pg).
Proof.
  intros (Hr & _ & _) Hres. apply lookup_lt_is_Some.
  rewrite heapAfterDestroy_length. unfold resolves, resolvesAt in Hres.
  destruct (routes w !! locationPathname w) as [r|] eqn:E.
  - injection Hres as ->. exact (Hr _ _ E).
  - exact (Hr _ _ Hres).
Qed.

Lemma wf_handleRouteChange w : wf w → wf (exec Router.handleRouteChange w).
Proof.
  intros Hw. unfold exec. destruct (resolves w) as [pg|] eqn:Hres.
  - destruct (wf_resolves w pg Hw Hres) as [st Hst].
    rewrite (handleRouteChange_resolved w pg st Hres Hst). simpl.
    destruct Hw as (Hr & Hc & Hl). unfold mounting.
    destruct (page_create (nextNode w) st) as [el st'].
    unfold wf; simpl. rewrite length_insert, heapAfterDestroy_length.
    split_and!; [done| |eauto|].
    + apply lookup_lt_Some in Hst. by rewrite heapAfterDestroy_length in Hst.
    + apply logOk_mounting; [done|]. unfold destroyCalls. by destruct (currentPage w).
  - by rewrite (handleRouteChange_unresolved w Hres).
Qed.

Lemma wf_setupNavHighlighting w : wf w → wf (exec Router.setupNavHighlighting w).
Proof.
  intros Hw. apply (wf_frame w _ []); try done; destruct w; try done.
  simpl. by rewrite app_nil_r.
Qed.

Lemma wf_pushState w url : wf w → wf (exec (Router.pushState resolvePathname url) w).
Proof. intros Hw. by apply (wf_frame w _ [EvPushState url]); destruct w. Qed.

Lemma exec_seq {A} (m : M Cls St A) (k : M Cls St unit) w :
  exec (m ;; k) w = exec k (exec m w).
Proof. unfold exec. cbv [mbind M_bind]. by destruct (m w). Qed.

Lemma wf_navigate w p : wf w → wf (exec (Router.navigate resolvePathname p) w).
Proof.
  intros Hw. unfold Router.navigate. rewrite !exec_seq.
  by apply wf_setupNavHighlighting, wf_handleRouteChange, wf_pushState.
Qed.

(** The click listener, case by case. *)
Lemma exec_onClick w e :
  exec (Router.onClick resolvePathname e) w
  = match closestAnchor e with
    | Some a =>
        if Js.startsWith (anchor_href a) (locationOrigin w)
           && negb (Js.truthy_string (datasetExternal a))
        then exec (Router.navigate resolvePathname (anchor_pathname a))
               (exec (emit EvPreventDefault) w)
        else w
    | None => w
    end.
Proof.
  unfold Router.onClick. destruct (closestAnchor e) as [a|]; [|done].
  unfold exec at 1. cbv [mbind M_bind get] . 
  destruct (_ && _); [|done].
  destruct (emit EvPreventDefault w) as [[] w1] eqn:E.
  unfold exec at 2. by rewrite E.
Qed.

Lemma wf_step w a : wf w → wf (exec (Router.step resolvePathname a) w).
Proof.
  intros Hw. destruct a as [p cls| |p|p|e]; simpl.
  - by apply wf_addRoute.
  - unfold start. rewrite exec_seq.
    by apply wf_setupNavHighlighting, wf_handleRouteChange.
  - by apply wf_navigate.
  - unfold onPopState. rewrite exec_seq. apply wf_handleRouteChange.
    by apply (wf_frame w _ []); destruct w; rewrite ?app_nil_r.
  - rewrite exec_onClick. destruct (closestAnchor e) as [a|]; [|done].
    destruct (_ && _); [|done].
    apply wf_navigate.
    by apply (wf_frame w _ [EvPreventDefault]); destruct w.
Qed.

Lemma wf_run acts w : wf w → wf (Router.run resolvePathname acts w).
Proof.
  revert w. induction acts as [|a acts IH]; intros w Hw; [done|].
  simpl. by apply IH, wf_step.
Qed.

(** *** Resolution at a given pathname *)

Lemma exec_onPopState w q :
  exec (onPopState q) w = exec Router.handleRouteChange (set_locationPathname q w).
Proof. unfold onPopState. by rewrite exec_seq. Qed.

Lemma exec_navigate w p :
  exec (Router.navigate resolvePathname p) w
  = exec setupNavHighlighting
      (exec Router.handleRouteChange (exec (pushState resolvePathname p) w)).
Proof. unfold Router.navigate. by rewrite !exec_seq. Qed.

Lemma mounting_mountedExactly w pg st el st' :
  heapAfterDestroy w !! pg = Some st →
  page_create (nextNode w) st = (el, st') →
  mountedExactly pg el st' (mounting pg st w)
  ∧ log (mounting pg st w)
    = log w ++ destroyCalls w
      ++ [EvClear; EvCreate pg el; EvAppend pg el;
          EvSetTitle (page_getTitle st'); EvScrollTo 0 0].
Proof.
  intros Hst Hc. unfold mounting, mountedExactly. rewrite Hc. simpl.
  split_and!; try done.
  apply list_lookup_insert_eq. by eapply lookup_lt_Some.
Qed.

Lemma log_setupNavHighlighting w : log (exec setupNavHighlighting w) = log w.
Proof. by destruct w. Qed.

Lemma mountedExactly_setupNavHighlighting w pg el st :
  mountedExactly pg el st w → mountedExactly pg el st (exec setupNavHighlighting w).
Proof. by destruct w. Qed.

(** A resolution at [q] that finds a page mounts it. *)
Lemma resolution_at w q pg :
  wf w → resolvesAt q w = Some pg →
  ∃ st, heapAfterDestroy w !! pg = Some st
        ∧ exec (onPopState q) w = mounting pg st (set_locationPathname q w).
Proof.
  intros Hw Hres.
  assert (Hw' : wf (set_locationPathname q w)).
  { by apply (wf_frame w _ []); destruct w; rewrite ?app_nil_r. }
  assert (Hres' : resolves (set_locationPathname q w) = Some pg) by by destruct w.
  destruct (wf_resolves _ pg Hw' Hres') as [st Hst].
  exists st. split; [by destruct w|].
  rewrite exec_onPopState. unfold exec.
  by rewrite (handleRouteChange_resolved _ pg st Hres' Hst).
Qed.

(** A resolution at [q] that finds no page changes nothing. *)
Lemma no_resolution_at w q :
  resolvesAt q w = None → exec (onPopState q) w = set_locationPathname q w.
Proof.
  intros Hres. rewrite exec_onPopState. unfold exec.
  rewrite handleRouteChange_unresolved; [done|by destruct w].
Qed.

(** [navigate(p)] is [pushState] followed by a resolution at the pathname
    the browser reports, followed by the highlighting of nav links. *)
Lemma navigate_at w p pg :
  wf w → resolvesAt (resolvePathname (locationPathname w) p) w = Some pg →
  ∃ st, heapAfterDestroy w !! pg = Some st
        ∧ exec (Router.navigate resolvePathname p) w
          = exec setupNavHighlighting
              (mounting pg st (exec (pushState resolvePathname p) w)).
Proof.
  intros Hw Hres. rewrite exec_navigate.
  pose proof (wf_pushState w p Hw) as Hw'.
  assert (Hres' : resolves (exec (pushState resolvePathname p) w) = Some pg)
    by by destruct w.
  destruct (wf_resolves _ pg Hw' Hres') as [st Hst].
  exists st. split; [by destruct w|].
  unfold exec at 2. by rewrite (handleRouteChange_resolved _ pg st Hres' Hst).
Qed.

Lemma no_navigate_at w p :
  resolvesAt (resolvePathname (locationPathname w) p) w = None →
  exec (Router.navigate resolvePathname p) w
  = exec setupNavHighlighting (exec (pushState resolvePathname p) w).
Proof.
  intros Hres. rewrite exec_navigate. unfold exec at 2.
  rewrite handleRouteChange_unresolved; [done|by destruct w].
Qed.

Lemma wf_mounted w : wf w → mountedPages w = option_list (currentPage w).
Proof.
  intros (_ & Hc & _). destruct (currentPage w) as [c|]; [|done].
  destruct Hc as (_ & el & Hct). unfold mountedPages. by rewrite Hct.
Qed.

(** The calls of a resolution that replaces a mounted page. *)
Lemma log_resolution_replacing w q c pg :
  wf w → currentPage w = Some c → resolvesAt q w = Some pg →
  ∃ el t,
    log (exec (onPopState q) w)
    = log w ++ [EvDestroy c; EvClear; EvCreate pg el; EvAppend pg el;
                EvSetTitle t; EvScrollTo 0 0].
Proof.
  intros Hw Hcur Hres.
  destruct (resolution_at w q pg Hw Hres) as (st & Hst & ->).
  destruct (page_create (nextNode w) st) as [el st'] eqn:Hcr.
  exists el, (page_getTitle st').
  edestruct (mounting_mountedExactly (set_locationPathname q w) pg) as [_ ->];
    [by destruct w..|].
  destruct w; simpl in *. unfold destroyCalls; simpl. by rewrite Hcur.
Qed.

Lemma log_navigate_replacing w p c pg :
  wf w → currentPage w = Some c →
  resolvesAt (resolvePathname (locationPathname w) p) w = Some pg →
  ∃ el t,
    log (exec (Router.navigate resolvePathname p) w)
    = log w ++ [EvPushState p; EvDestroy c; EvClear; EvCreate pg el;
                EvAppend pg el; EvSetTitle t; EvScrollTo 0 0].
Proof.
  intros Hw Hcur Hres.
  destruct (navigate_at w p pg Hw Hres) as (st & Hst & ->).
  destruct (page_create (nextNode w) st) as [el st'] eqn:Hcr.
  exists el, (page_getTitle st').
  edestruct (mounting_mountedExactly (exec (pushState resolvePathname p) w) pg)
    as [_ Hlog]; [by destruct w..|].
  rewrite log_setupNavHighlighting, Hlog.
  destruct w; simpl in *. unfold destroyCalls; simpl.
  rewrite Hcur. by rewrite <- app_assoc.
Qed.

(** C1: in every state the router reaches from a freshly constructed one,
    by any sequence of registrations, starts, navigations, history moves
    and clicks, the container holds at most one page root, namely that of
    the current page, and no prefix of the call log leaves two page roots in
    the container; and when a page [c] is mounted in such a state, a
    resolution that finds a page [pg] makes exactly these calls, in this
    order: [c.destroy()], clearing the container, [pg.create()], appending
    its result, setting the title, scrolling to the top; [navigate] makes
    the same calls after [pushState]. *)
Theorem one_page_mounted_destroy_first
    origin path docTitle links children (acts : list (Action Cls)) :
  let w := Router.run resolvePathname acts
             (newRouter origin path docTitle links children) in
  (length (mountedPages w) ≤ 1)%nat
  ∧ mountedPages w = option_list (currentPage w)
  ∧ (∀ n, (length (mountedAfter (take n (log w))) ≤ 1)%nat)
  ∧ (∀ q c pg,
       mountedPages w = [c] → resolvesAt q w = Some pg →
       ∃ el t,
         log (exec (onPopState q) w)
         = log w ++ [EvDestroy c; EvClear; EvCreate pg el; EvAppend pg el;
                     EvSetTitle t; EvScrollTo 0 0])
  ∧ (∀ p c pg,
       mountedPages w = [c] →
       resolvesAt (resolvePathname (locationPathname w) p) w = Some pg →
       ∃ el t,
         log (exec (Router.navigate resolvePathname p) w)
         = log w ++ [EvPushState p; EvDestroy c; EvClear; EvCreate pg el;
                     EvAppend pg el; EvSetTitle t; EvScrollTo 0 0]).
Proof.
  intros w.
  assert (Hw : wf w) by apply wf_run, wf_newRouter.
  pose proof (wf_mounted w Hw) as Hm.
  assert (Hcur : ∀ c, mountedPages w = [c] → currentPage w = Some c).
  { intros c Hc. rewrite Hm in Hc. destruct (currentPage w); [|done].
    by injection Hc as ->. }
  split_and!.
  - rewrite Hm. destruct (currentPage w); simpl; lia.
  - done.
  - apply Hw.
  - intros q c pg Hc Hres. by apply log_resolution_replacing; [|apply Hcur|].
  - intros p c pg Hc Hres. by apply log_navigate_replacing; [|apply Hcur|].
Qed.

(** C2: when [p] is registered for the instance [pg], a resolution at [p]
    calls [create] on [pg] (in the state [st] it has once the outgoing page
    is destroyed), makes the returned root the container's only child,
    makes [pg] the current page and sets the title to what [getTitle]
    returns on it; [navigate(p)] does the same whenever the pathname the
    browser reports after [pushState] is [p] itself, or [p] is the
    wildcard and the reported pathname has no route of its own. *)
Theorem navigate_mounts_registered_page
    origin path docTitle links children (acts : list (Action Cls)) p pg :
  let w := Router.run resolvePathname acts
             (newRouter origin path docTitle links children) in
  routes w !! p = Some pg →
  ∃ st el st',
    heapAfterDestroy w !! pg = Some st
    ∧ page_create (nextNode w) st = (el, st')
    ∧ mountedExactly pg el st' (exec (onPopState p) w)
    ∧ (let q := resolvePathname (locationPathname w) p in
       q = p ∨ (p = "*" ∧ routes w !! q = None) →
       mountedExactly pg el st' (exec (Router.navigate resolvePathname p) w)).
Proof.
  intros w Hreg.
  assert (Hw : wf w) by apply wf_run, wf_newRouter.
  assert (Hres : resolvesAt p w = Some pg) by (unfold resolvesAt; by rewrite Hreg).
  destruct (resolution_at w p pg Hw Hres) as (st & Hst & Hpop).
  destruct (page_create (nextNode w) st) as [el st'] eqn:Hcr.
  exists st, el, st'. split_and!; [done..| |].
  - rewrite Hpop. eapply proj1, mounting_mountedExactly; by destruct w.
  - intros q Hq.
    assert (Hres' : resolvesAt q w = Some pg).
    { unfold resolvesAt. destruct Hq as [->|[-> Hnone]]; [by rewrite Hreg|].
      by rewrite Hnone. }
    destruct (navigate_at w p pg Hw Hres') as (st2 & Hst2 & ->).
    rewrite Hst in Hst2. injection Hst2 as <-.
    apply mountedExactly_setupNavHighlighting.
    eapply proj1, mounting_mountedExactly; by destruct w.
Qed.

(** C3: for a pathname [q] without a route of its own, a resolution at
    [q] mounts the wildcard page when one is registered; when none is, the
    resolution calls nothing and changes nothing: the current page, the
    container, the title, the heap of page instances and the scroll
    position stay as they were, and [navigate] to such a pathname only
    records the history entry. *)
Theorem unregistered_path_resolution
    origin path docTitle links children (acts : list (Action Cls)) q :
  let w := Router.run resolvePathname acts
             (newRouter origin path docTitle links children) in
  routes w !! q = None →
  match routes w !! "*" with
  | Some pg =>
      ∃ st el st',
        heapAfterDestroy w !! pg = Some st
        ∧ page_create (nextNode w) st = (el, st')
        ∧ mountedExactly pg el st' (exec (onPopState q) w)
  | None =>
      (let w' := exec (onPopState q) w in
       w' = set_locationPathname q w
       ∧ mountState w' = mountState w ∧ heap w' = heap w
       ∧ scroll w' = scroll w ∧ log w' = log w)
      ∧ (∀ p, resolvePathname (locationPathname w) p = q →
           let w' := exec (Router.navigate resolvePathname p) w in
           mountState w' = mountState w ∧ heap w' = heap w
           ∧ scroll w' = scroll w ∧ log w' = log w ++ [EvPushState p])
  end.
Proof.
  intros w Hq.
  assert (Hw : wf w) by apply wf_run, wf_newRouter.
  destruct (routes w !! "*") as [pg|] eqn:Hstar.
  - assert (Hres : resolvesAt q w = Some pg) by (unfold resolvesAt; by rewrite Hq).
    destruct (resolution_at w q pg Hw Hres) as (st & Hst & Hpop).
    destruct (page_create (nextNode w) st) as [el st'] eqn:Hcr.
    exists st, el, st'. split_and!; [done..|].
    rewrite Hpop. eapply proj1, mounting_mountedExactly; by destruct w.
  - assert (Hres : resolvesAt q w = None) by (unfold resolvesAt; by rewrite Hq).
    split.
    + simpl. rewrite (no_resolution_at w q Hres). by destruct w.
    + intros p Hp. simpl. rewrite no_navigate_at by (by rewrite Hp).
      by destruct w.
Qed.

(** C9: when the page mounted is the one registered for [p], a
    resolution at [p] destroys that instance, clears the container and
    calls [create] on the same instance again, in its destroyed state;
    [navigate(p)] does so too after pushing the history entry, whenever the
    browser then reports [p] as the pathname. *)
Theorem renavigate_rebuilds_same_instance
    origin path docTitle links children (acts : list (Action Cls)) p pg :
  let w := Router.run resolvePathname acts
             (newRouter origin path docTitle links children) in
  currentPage w = Some pg → routes w !! p = Some pg →
  ∃ st el st',
    heap w !! pg = Some st
    ∧ page_create (nextNode w) (page_destroy st) = (el, st')
    ∧ (let w' := exec (onPopState p) w in
       log w' = log w ++ [EvDestroy pg; EvClear; EvCreate pg el; EvAppend pg el;
                          EvSetTitle (page_getTitle st'); EvScrollTo 0 0]
       ∧ mountedExactly pg el st' w')
    ∧ (resolvePathname (locationPathname w) p = p →
       let w' := exec (Router.navigate resolvePathname p) w in
       log w' = log w ++ [EvPushState p; EvDestroy pg; EvClear; EvCreate pg el;
                          EvAppend pg el; EvSetTitle (page_getTitle st');
                          EvScrollTo 0 0]
       ∧ mountedExactly pg el st' w').
Proof.
  intros w Hcur Hreg.
  assert (Hw : wf w) by apply wf_run, wf_newRouter.
  assert (Hres : resolvesAt p w = Some pg) by (unfold resolvesAt; by rewrite Hreg).
  destruct (resolution_at w p pg Hw Hres) as (st1 & Hst1 & Hpop).
  assert (Hheap : ∃ st, heap w !! pg = Some st ∧ st1 = page_destroy st).
  { unfold heapAfterDestroy in Hst1. rewrite Hcur in Hst1.
    rewrite list_lookup_alter_eq in Hst1.
    apply fmap_Some in Hst1 as (st & Hst & ->). eauto. }
  destruct Hheap as (st & Hst & ->).
  destruct (page_create (nextNode w) (page_destroy st)) as [el st'] eqn:Hcr.
  exists st, el, st'. split_and!; [done..| |].
  - simpl. rewrite Hpop.
    edestruct (mounting_mountedExactly (set_locationPathname p w) pg) as [Hm ->];
      [by destruct w..|].
    split; [|done]. destruct w; simpl in *. unfold destroyCalls; simpl.
    by rewrite Hcur.
  - intros Hp. simpl.
    assert (Hres' : resolvesAt (resolvePathname (locationPathname w) p) w = Some pg)
      by by rewrite Hp.
    destruct (navigate_at w p pg Hw Hres') as (st2 & Hst2 & ->).
    rewrite Hst1 in Hst2. injection Hst2 as <-.
    edestruct (mounting_mountedExactly (exec (pushState resolvePathname p) w) pg)
      as [Hm Hlog]; [by destruct w..|].
    split; [|by apply mountedExactly_setupNavHighlighting].
    rewrite log_setupNavHighlighting, Hlog. destruct w; simpl in *. unfold destroyCalls; simpl.
    rewrite Hcur. by rewrite <- app_assoc.
Qed.

(** C6: registering [p] twice leaves the same route table, instance for
    instance, as registering it once with the second class, and [p] then
    leads to a new instance of that class; each call of [addRoute]
    constructs its instance during the call. *)
Theorem addRoute_replaces_and_constructs
    origin path docTitle links children (acts : list (Action Cls)) p F1 F2 :
  let w := Router.run resolvePathname acts
             (newRouter origin path docTitle links children) in
  let w1 := exec (addRoute p F1) w in
  let w12 := exec (addRoute p F2) w1 in
  let w2 := exec (addRoute p F2) w in
  routeTable w12 = routeTable w2
  ∧ routeTable w2 !! p = Some (page_new F2)
  ∧ dom (routes w12) = dom (routes w2)
  ∧ heap w1 = heap w ++ [page_new F1]
  ∧ log w1 = log w ++ [EvConstruct F1 (length (heap w))]
  ∧ log w12 = log w ++ [EvConstruct F1 (length (heap w));
                        EvConstruct F2 (S (length (heap w)))].
Proof.
  intros w w1 w12 w2.
  assert (Hw : wf w) by apply wf_run, wf_newRouter.
  destruct Hw as (Hr & _ & _). subst w1 w12 w2.
  destruct w as [rt ct cur hp lo lp hi ti sc nl nn lg]; simpl in Hr.
  unfold addRoute, routeTable; run_m.
  rewrite !length_app; simpl. rewrite Nat.add_1_r.
  split_and!.
  - apply map_eq. intros k. rewrite !lookup_omap.
    destruct (decide (k = p)) as [->|Hne].
    + rewrite insert_insert_eq, !lookup_insert_eq. simpl.
      rewrite (lookup_app_r (hp ++ _)) by (rewrite length_app; simpl; lia).
      rewrite lookup_app_r by lia.
      rewrite length_app; simpl.
      by replace (S (length hp) - (length hp + 1)) with 0 by lia;
         replace (length hp - length hp) with 0 by lia.
    + rewrite insert_insert_eq, !lookup_insert_ne by done.
      destruct (rt !! k) as [r|] eqn:Hk; [|done]. simpl.
      pose proof (Hr _ _ Hk) as Hlt. simpl in Hlt.
      rewrite <- app_assoc. by rewrite !lookup_app_l by lia.
  - rewrite lookup_omap, lookup_insert_eq. simpl.
    rewrite lookup_app_r by lia. by replace (length hp - length hp) with 0 by lia.
  - by rewrite insert_insert_eq, !dom_insert_L.
  - done.
  - done.
  - by rewrite <- app_assoc.
Qed.

(** *** Clicks *)

Lemma prefix_append (s t : string) : String.prefix s (s +:+ t) = true.
Proof.
  induction s as [|a s IH]; [by destruct t|].
  change (String.prefix (String a s) (String a (s +:+ t)) = true). simpl.
  destruct (Ascii.ascii_dec a a); [exact IH|done].
Qed.

Lemma append_assoc (s t u : string) : (s +:+ t) +:+ u = s +:+ t +:+ u.
Proof.
  induction s as [|a s IH]; [done|].
  change (String a ((s +:+ t) +:+ u) = String a (s +:+ t +:+ u)). by f_equal.
Qed.

(** The href of a URL without credentials extends its origin. *)
Lemma href_extends_origin (u : Url.t) :
  Url.userinfo u = EmptyString → Js.startsWith (Url.href u) (Url.origin u) = true.
Proof.
  intros Hu. unfold Js.startsWith, Url.href, Url.origin. rewrite Hu.
  change (if String.eqb EmptyString EmptyString then EmptyString else EmptyString +:+ "@") with EmptyString.
  change (EmptyString +:+ ?x) with x.
  rewrite <- (append_assoc "//" (Url.authority u)).
  rewrite <- (append_assoc (Url.protocol u) ("//" +:+ Url.authority u)).
  apply prefix_append.
Qed.

(** A click that finds no anchor, or an anchor whose href does not begin
    with the origin, or one whose [dataset.external] is truthy, is left to
    the browser: the listener calls nothing and changes nothing. *)
Lemma click_left_alone w e :
  match closestAnchor e with
  | Some a =>
      Js.startsWith (anchor_href a) (locationOrigin w) = false
      ∨ Js.truthy_string (datasetExternal a) = true
  | None => True
  end →
  exec (Router.onClick resolvePathname e) w = w.
Proof.
  rewrite exec_onClick. destruct (closestAnchor e) as [a|]; [|done].
  by intros [-> | ->]; rewrite ?andb_false_r.
Qed.

(** [navigate] does not read the log. *)
Lemma navigate_after_emit w ev p :
  wf w → quiet ev = true →
  let w1 := exec (Router.navigate resolvePathname p) w in
  let w2 := exec (Router.navigate resolvePathname p) (exec (emit ev) w) in
  mountState w2 = mountState w1 ∧ heap w2 = heap w1
  ∧ locationPathname w2 = locationPathname w1 ∧ history w2 = history w1
  ∧ scroll w2 = scroll w1 ∧ navLinks w2 = navLinks w1
  ∧ ∃ es, log w1 = log w ++ es ∧ log w2 = log w ++ ev :: es.
Proof.
  intros Hw Hev w1 w2. subst w1 w2.
  assert (Hw' : wf (exec (emit ev) w)).
  { apply (wf_frame w _ [ev]); try (by destruct w). simpl. by rewrite Hev. }
  destruct (resolvesAt (resolvePathname (locationPathname w) p) w) as [pg|] eqn:Hres.
  - destruct (navigate_at w p pg Hw Hres) as (st & Hst & ->).
    destruct (navigate_at (exec (emit ev) w) p pg Hw') as (st2 & Hst2 & ->);
      [by destruct w|].
    assert (Hsame : heapAfterDestroy (exec (emit ev) w) = heapAfterDestroy w)
      by by destruct w.
    rewrite Hsame, Hst in Hst2. injection Hst2 as <-.
    destruct w as [rt ct cur hp lo lp hi ti sc nl nn lg].
    unfold mounting, mountState; run_m.
    destruct (page_create nn st) as [el st']. unfold destroyCalls. simpl.
    split_and!; try done. rewrite <- !app_assoc. eexists. split; [reflexivity|].
    done.
  - rewrite (no_navigate_at w p Hres).
    rewrite (no_navigate_at (exec (emit ev) w) p) by (by destruct w).
    destruct w as [rt ct cur hp lo lp hi ti sc nl nn lg].
    unfold mountState; run_m. simpl.
    split_and!; try done. rewrite <- !app_assoc. eexists. split; [reflexivity|].
    done.
Qed.

(** A click on an anchor whose href begins with the origin and whose
    [dataset.external] is falsy is taken over: the default action is
    prevented and the router ends up as after [navigate] with the anchor's
    pathname. *)
Lemma click_routed_in_app
    origin path docTitle links children (acts : list (Action Cls)) e a :
  let w := Router.run resolvePathname acts
             (newRouter origin path docTitle links children) in
  closestAnchor e = Some a →
  Js.startsWith (anchor_href a) (locationOrigin w) = true →
  Js.truthy_string (datasetExternal a) = false →
  let w' := exec (Router.onClick resolvePathname e) w in
  let wn := exec (Router.navigate resolvePathname (anchor_pathname a)) w in
  defaultPrevented w w' = true
  ∧ mountState w' = mountState wn ∧ heap w' = heap wn
  ∧ locationPathname w' = locationPathname wn ∧ history w' = history wn.
Proof.
  intros w Ha Hs Ht w' wn. subst w' wn.
  assert (Hw : wf w) by apply wf_run, wf_newRouter.
  rewrite exec_onClick, Ha, Hs, Ht. simpl.
  destruct (navigate_after_emit w EvPreventDefault (anchor_pathname a) Hw eq_refl)
    as (Hm & Hh & Hl & Hhi & _ & _ & es & _ & Hlog).
  split_and!; try done.
  unfold defaultPrevented. rewrite Hlog, drop_app_length. done.
Qed.

(** In particular every link to this origin that has neither credentials
    nor the marker attribute is routed in the app. *)
Lemma click_same_origin_plain_link
    origin path docTitle links children (acts : list (Action Cls)) e a u :
  let w := Router.run resolvePathname acts
             (newRouter origin path docTitle links children) in
  closestAnchor e = Some a → target a = Some u →
  sameOrigin (locationOrigin w) a = true →
  Url.userinfo u = EmptyString → datasetExternal a = None →
  let w' := exec (Router.onClick resolvePathname e) w in
  let wn := exec (Router.navigate resolvePathname (Url.pathname u)) w in
  defaultPrevented w w' = true ∧ mountState w' = mountState wn.
Proof.
  intros w Ha Hu Hso Hui Hext w' wn.
  unfold sameOrigin in Hso. rewrite Hu in Hso. apply String.eqb_eq in Hso.
  pose proof (click_routed_in_app origin path docTitle links children acts e a Ha)
    as H. fold w in H. unfold anchor_href, anchor_pathname in H.
  rewrite Hu, Hext, <- Hso in H.
  destruct (H (href_extends_origin u Hui) eq_refl) as (? & ? & _). done.
Qed.

End RouterFacts.

(** ** The application of [main.ts] *)

Section MainFacts.

Import Router.

(** Scenario of section 8: after [start()] at ["/"] the home page is
    mounted alone and gives the title. *)
Example boot_at_root :
  mountState (Main.booted "/") = (Some 0, [PageRoot 0 0], "3D Experience | Home").
Proof. vm_compute. reflexivity. Qed.

(** Scenario of section 8: [navigate('/unknown')] then mounts the 404
    page, after one call of the home page's [destroy]. *)
Example navigate_unknown :
  let w := exec (Router.navigate Main.resolveAtRoot "/unknown") (Main.booted "/") in
  mountState w = (Some 1, [PageRoot 1 1], "404 - Page Not Found")
  ∧ drop (length (log (Main.booted "/"))) (log w)
    = [EvPushState "/unknown"; EvDestroy 0; EvClear; EvCreate 1 1; EvAppend 1 1;
       EvSetTitle "404 - Page Not Found"; EvScrollTo 0 0].
Proof. vm_compute. done. Qed.

(** C4, at an input where the code departs from it: on a page of
    [https://example.com], a click on a link to the other host
    [example.com.evil.org] is taken over by the router, because the link's
    href begins with the text of the page's origin: the default action is
    prevented, ["/login"] is pushed to the history and resolved in the
    app, and the home page is replaced by the 404 page. *)
Theorem click_lookalike_link_intercepted :
  let w := Main.booted "/" in
  let w' := exec (Router.onClick Main.resolveAtRoot (Main.clickOn Main.lookalikeLink)) w in
  sameOrigin (locationOrigin w) Main.lookalikeLink = false
  ∧ defaultPrevented w w' = true
  ∧ history w' = ["/login"]
  ∧ mountState w = (Some 0, [PageRoot 0 0], "3D Experience | Home")
  ∧ mountState w' = (Some 1, [PageRoot 1 1], "404 - Page Not Found").
Proof. vm_compute. done. Qed.

(** A link with the marker attribute but no value for it is taken over
    as well: [dataset.external] is the empty string, which is falsy. *)
Example click_bare_marker_intercepted :
  let w := Main.booted "/" in
  let w' := exec (Router.onClick Main.resolveAtRoot (Main.clickOn Main.bareMarkerLink)) w in
  markedExternal Main.bareMarkerLink = true
  ∧ defaultPrevented w w' = true
  ∧ history w' = ["/docs"].
Proof. vm_compute. done. Qed.

(** Links to another host whose href does not begin with the origin, and
    links with a non-empty marker, are left to the browser. *)
Example click_foreign_and_marked_left_alone :
  let w := Main.booted "/" in
  exec (Router.onClick Main.resolveAtRoot (Main.clickOn Main.foreignLink)) w = w
  ∧ exec (Router.onClick Main.resolveAtRoot (Main.clickOn Main.markedLink)) w = w.
Proof. split; apply click_left_alone; vm_compute; auto. Qed.

(** C5, at an input where the code departs from it: on a page of
    [https://example.com], a click on the unmarked link
    [https://guest@example.com/about], which leads to the same origin, is
    not taken over, because its href does not begin with the text of the
    origin: the default action is not prevented and the router stays as it
    was, while [navigate('/about')] would have mounted the 404 page. *)
Theorem click_credentialed_link_not_intercepted :
  let w := Main.booted "/" in
  let w' := exec (Router.onClick Main.resolveAtRoot (Main.clickOn Main.credentialedLink)) w in
  let wn := exec (Router.navigate Main.resolveAtRoot (anchor_pathname Main.credentialedLink)) w in
  sameOrigin (locationOrigin w) Main.credentialedLink = true
  ∧ markedExternal Main.credentialedLink = false
  ∧ defaultPrevented w w' = false
  ∧ w' = w
  ∧ mountState w' = (Some 0, [PageRoot 0 0], "3D Experience | Home")
  ∧ mountState wn = (Some 1, [PageRoot 1 1], "404 - Page Not Found").
Proof.
  split_and!; vm_compute; done.
Qed.

(** The link on the 404 page, a plain link to the same origin, is routed
    in the app. *)
Example click_home_link :
  let w := exec (Router.navigate Main.resolveAtRoot "/unknown") (Main.booted "/") in
  let w' := exec (Router.onClick Main.resolveAtRoot (Main.clickOn Main.homeLink)) w in
  defaultPrevented w w' = true
  ∧ mountState w' = mountState (exec (Router.navigate Main.resolveAtRoot "/") w)
  ∧ title w' = "3D Experience | Home".
Proof. vm_compute. done. Qed.

End MainFacts.

Lemma one_page_mounted_destroy_first_witness :
  ∃ el t,
    Router.log (Router.exec (Router.onPopState "/unknown") (Main.booted "/"))
    = Router.log (Main.booted "/")
      ++ [Router.EvDestroy 0; Router.EvClear; Router.EvCreate 1 el;
          Router.EvAppend 1 el; Router.EvSetTitle t; Router.EvScrollTo 0 0].
Proof.
  pose proof (one_page_mounted_destroy_first Main.resolveAtRoot
                "https://example.com" "/" EmptyString [] [] Main.boot) as H.
  destruct H as (_ & _ & _ & H & _).
  apply (H "/unknown" 0 1); vm_compute; reflexivity.
Defined.

Lemma navigate_mounts_registered_page_witness :
  ∃ el st',
    Router.mountedExactly 0 el st'
      (Router.exec (Router.navigate Main.resolveAtRoot "/") (Main.booted "/unknown")).
Proof.
  destruct (navigate_mounts_registered_page Main.resolveAtRoot
              "https://example.com" "/unknown" EmptyString [] [] Main.boot "/" 0)
    as (st & el & st' & _ & _ & _ & H); [vm_compute; reflexivity|].
  exists el, st'. apply H. left. vm_compute. reflexivity.
Defined.

Lemma unregistered_path_resolution_witness :
  let w := Router.run Main.resolveAtRoot
             [Router.AddRoute "/" HomePageClass; Router.Start] (Main.document "/") in
  Router.exec (Router.onPopState "/unknown") w
  = Router.set_locationPathname "/unknown" w.
Proof.
  intros w.
  pose proof (unregistered_path_resolution Main.resolveAtRoot
                "https://example.com" "/" EmptyString [] []
                [Router.AddRoute "/" HomePageClass; Router.Start] "/unknown") as H.
  cbv zeta in H. set (w0 := Router.run _ _ _) in H.
  assert (Hstar : Router.routes w0 !! "*" = None) by (vm_compute; reflexivity).
  rewrite Hstar in H.
  destruct H as [[H _] _]; [vm_compute; reflexivity|exact H].
Defined.

Lemma renavigate_rebuilds_same_instance_witness :
  ∃ el st',
    Router.log (Router.exec (Router.navigate Main.resolveAtRoot "/") (Main.booted "/"))
    = Router.log (Main.booted "/")
      ++ [Router.EvPushState "/"; Router.EvDestroy 0; Router.EvClear;
          Router.EvCreate 0 el; Router.EvAppend 0 el;
          Router.EvSetTitle (page_getTitle st'); Router.EvScrollTo 0 0].
Proof.
  destruct (renavigate_rebuilds_same_instance Main.resolveAtRoot
              "https://example.com" "/" EmptyString [] [] Main.boot "/" 0)
    as (st & el & st' & _ & _ & _ & H); [vm_compute; reflexivity..|].
  exists el, st'. apply H. vm_compute. reflexivity.
Defined.

(** * Further properties *)

(** ** Scene controller: toggles, timers, disposal *)

Section Scene3DMore.

Import Scene3D View.

Context {Cb : Type}.
Implicit Types (s : Scene3D.t Cb) (tm : Js.Timers) (evs : list ControlEvent).

Lemma shown_toggle_same (op : Toggle) (v : bool) s :
  targetPresent op s = true → shown op (toggle op v s) = Some v.
Proof.
  destruct s, op; cbv [toggle targetPresent shown]; simpl;
    match goal with |- bool_decide (is_Some ?o) = true → _ => destruct o as [[]|] end;
    simpl; try done; by destruct v.
Qed.

Lemma shown_toggle_other (op op' : Toggle) (v : bool) s :
  op' ≠ op → shown op' (toggle op v s) = shown op' s.
Proof.
  intros Hne. destruct s, op, op'; try done;
    cbv [toggle shown togglePoleVisibility toggleEquatorVisibility
         toggleLongitudeLinesVisibility toggleLatitudeLinesVisibility
         toggleStatsVisibility toggleRendererInfoVisibility
         togglePrimeMeridianVisibility toggleAntimeridianVisibility];
    simpl;
    repeat match goal with |- context [match ?o with Some _ => _ | None => _ end] =>
      is_var o; destruct o end; done.
Qed.

Lemma shown_present (op : Toggle) s b : shown op s = Some b → targetPresent op s = true.
Proof.
  destruct s, op; cbv [shown targetPresent]; simpl;
    match goal with |- _ <$> ?o = _ → _ => destruct o end; done.
Qed.

(** The toggles leave the fields of the control handlers alone. *)
Lemma toggle_control_fields (op : Toggle) (v : bool) s :
  firstInteractionDone (toggle op v s) = firstInteractionDone s
  ∧ inactivityTimeoutId (toggle op v s) = inactivityTimeoutId s.
Proof.
  destruct s, op;
    cbv [toggle togglePoleVisibility toggleEquatorVisibility
         toggleLongitudeLinesVisibility toggleLatitudeLinesVisibility
         toggleStatsVisibility toggleRendererInfoVisibility
         togglePrimeMeridianVisibility toggleAntimeridianVisibility];
    simpl;
    repeat match goal with |- context [match ?o with Some _ => _ | None => _ end] =>
      is_var o; destruct o end; done.
Qed.

(** X1: a toggle sets what its own member shows to the value it was given,
    leaves what every other member shows as it was, and of two calls in a
    row only the second counts. *)
Theorem toggle_sets_its_member_only (op op' : Toggle) (v v' : bool) s :
  (targetPresent op s = true → shown op (toggle op v s) = Some v)
  ∧ (op' ≠ op → shown op' (toggle op v s) = shown op' s)
  ∧ toggle op v' (toggle op v s) = toggle op v' s.
Proof.
  split_and!.
  - apply shown_toggle_same.
  - apply shown_toggle_other.
  - destruct s, op;
      cbv [toggle togglePoleVisibility toggleEquatorVisibility
           toggleLongitudeLinesVisibility toggleLatitudeLinesVisibility
           toggleStatsVisibility toggleRendererInfoVisibility
           togglePrimeMeridianVisibility toggleAntimeridianVisibility];
      simpl;
      repeat match goal with |- context [match ?o with Some _ => _ | None => _ end] =>
        is_var o; destruct o as [[]|] end; done.
Qed.

(** *** Timers *)

Lemma clearTimeout_tracked s tm id :
  timersTracked s tm → inactivityTimeoutId s = Some id →
  Js.pendingTimers (Js.clearTimeout id tm) = [].
Proof.
  unfold timersTracked. intros Ht Hid. simpl.
  induction (Js.pendingTimers tm) as [|x l IH]; [done|].
  apply Forall_cons in Ht as [Hx Hl]. rewrite Hid in Hx. injection Hx as ->.
  rewrite filter_cons_False by (by intros ?). by apply IH.
Qed.

Lemma tracked_no_handle s tm :
  timersTracked s tm → inactivityTimeoutId s = None → Js.pendingTimers tm = [].
Proof.
  unfold timersTracked. intros Ht Hid.
  destruct (Js.pendingTimers tm) as [|x l]; [done|].
  apply Forall_cons in Ht as [Hx _]. by rewrite Hid in Hx.
Qed.

(** The pending timers after [clearTimeout] of the remembered handle, if
    there is one: none. *)
Lemma cleared_tracked s tm :
  timersTracked s tm →
  Js.pendingTimers (match inactivityTimeoutId s with
                    | Some id => Js.clearTimeout id tm
                    | None => tm
                    end) = [].
Proof.
  intros Ht. destruct (inactivityTimeoutId s) as [id|] eqn:Hid.
  - by eapply clearTimeout_tracked.
  - by eapply tracked_no_handle.
Qed.

Lemma deliver_tracked e s tm :
  timersTracked s tm →
  timersTracked (deliver e (s, tm)).1.1 (deliver e (s, tm)).1.2.
Proof.
  intros Ht. pose proof (cleared_tracked s tm Ht) as Hc.
  destruct s as [an cl ep eq lo la sts ri are ara iti fid pm am ofi]; simpl in *. destruct e as [| |id]; simpl.
  - destruct cl; [|done].
    unfold handleControlStart, timersTracked; simpl.
    destruct iti; simpl in *;
      destruct fid, ofi; simpl;
      rewrite Hc; constructor.
  - destruct cl; [|done].
    unfold handleControlEnd, timersTracked; simpl.
    destruct ara; simpl.
    + destruct iti; simpl in *; rewrite Hc; by repeat constructor.
    + destruct iti; simpl in *; rewrite Hc; constructor.
  - case_bool_decide; [|done]. unfold timersTracked in *; simpl in *.
    apply Forall_forall. intros x Hx. apply list_elem_of_filter in Hx as [_ Hx].
    by eapply Forall_forall in Ht.
Qed.

Lemma after_cons e evs (st : Scene3D.t Cb * Js.Timers) :
  after (e :: evs) st = after evs (deliver e st).1.
Proof. done. Qed.

Lemma after_tracked evs s tm :
  timersTracked s tm → timersTracked (after evs (s, tm)).1 (after evs (s, tm)).2.
Proof.
  revert s tm. induction evs as [|e evs IH]; intros s tm Ht; [done|].
  rewrite after_cons. pose proof (deliver_tracked e s tm Ht) as Ht'.
  destruct (deliver e (s, tm)) as [[s' tm'] cbs]. by apply IH.
Qed.

(** While rotation is off and no timer is pending, only a 'controlend'
    can bring it back. *)
Lemma after_stays_off evs s tm :
  ControlEnd ∉ evs →
  autoRotateEnabled s = false → Js.pendingTimers tm = [] →
  autoRotateEnabled (after evs (s, tm)).1 = false.
Proof.
  revert s tm. induction evs as [|e evs IH]; intros s tm Hevs Hoff Hp; [done|].
  apply not_elem_of_cons in Hevs as [Hne Hevs]. rewrite after_cons.
  destruct s as [an cl ep eq lo la sts ri are ara iti fid pm am ofi], tm as [nx pd]; simpl in *; subst. destruct e as [| |id]; [|done|].
  - simpl. destruct cl; [|by apply IH].
    unfold handleControlStart; simpl.
    destruct iti, fid, ofi;
      simpl; by apply IH.
  - simpl. by apply IH.
Qed.

(** X2: a 'controlstart' cancels the pending resume timer: until the next
    'controlend', whatever timers fire, rotation stays off. *)
Theorem controlstart_cancels_resume s tm evs :
  timersTracked s tm → controlsListening s = true → ControlEnd ∉ evs →
  autoRotateEnabled (after (ControlStart :: evs) (s, tm)).1 = false.
Proof.
  intros Ht Hl Hevs. rewrite after_cons.
  pose proof (cleared_tracked s tm Ht) as Hc.
  destruct s as [an cl ep eq lo la sts ri are ara iti fid pm am ofi]; simpl in *; subst. unfold handleControlStart; simpl.
  destruct iti, fid, ofi;
    simpl in *; by apply after_stays_off.
Qed.

(** X3: a 'controlend' on a scene whose auto-rotation is allowed arms exactly
    one timer, and when that timer fires rotation is on again. *)
Theorem inactivity_resumes_rotation s tm :
  timersTracked s tm → controlsListening s = true → autoRotateAllowed s = true →
  let st := after [ControlEnd] (s, tm) in
  inactivityTimeoutId st.1 = Some (Js.nextTimerId tm)
  ∧ Js.pendingTimers st.2 = [Js.nextTimerId tm]
  ∧ autoRotateEnabled (after [TimerFired (Js.nextTimerId tm)] st).1 = true.
Proof.
  intros Ht Hl Ha. pose proof (cleared_tracked s tm Ht) as Hc.
  destruct s as [an cl ep eq lo la sts ri are ara iti fid pm am ofi], tm as [nx pd]; simpl in *; subst.
  unfold after; simpl. unfold handleControlEnd; simpl.
  destruct iti; simpl in *; rewrite Hc; simpl;
    rewrite bool_decide_eq_true_2 by (by apply list_elem_of_singleton); done.
Qed.

(** X4: after [toggleAutoRotate(false)], with no timer pending, no sequence of
    control and timer events turns rotation back on; a timer that is
    still pending at that moment does turn it back on when it fires. *)
Theorem autorotate_off_stays_off s tm :
  (Js.pendingTimers tm = [] →
   ∀ evs, autoRotateEnabled (after evs (toggleAutoRotate false s, tm)).1 = false)
  ∧ (∀ id, id ∈ Js.pendingTimers tm →
       autoRotateEnabled (after [TimerFired id] (toggleAutoRotate false s, tm)).1 = true).
Proof.
  split.
  - intros Hp evs.
    assert (H : ∀ s0 tm0, autoRotateAllowed s0 = false → autoRotateEnabled s0 = false →
                Js.pendingTimers tm0 = [] →
                autoRotateEnabled (after evs (s0, tm0)).1 = false).
    { clear. induction evs as [|e evs IH]; intros s tm Ha Hoff Hp; [done|].
      rewrite after_cons.
      destruct s as [an cl ep eq lo la sts ri are ara iti fid pm am ofi], tm as [nx pd]; simpl in *; subst. destruct e as [| |id]; simpl.
      - destruct cl; [|by apply IH].
        unfold handleControlStart; simpl.
        destruct iti, fid, ofi;
          simpl; by apply IH.
      - destruct cl; [|by apply IH].
        unfold handleControlEnd; simpl.
        destruct iti; simpl; by apply IH.
      - by apply IH. }
    apply H; by destruct s.
  - intros id Hid. destruct s; unfold after; simpl.
    by rewrite bool_decide_eq_true_2.
Qed.

Lemma dispose_fields s tm :
  timersTracked s tm →
  Js.pendingTimers (dispose s tm).2 = [] ∧ animationId (dispose s tm).1 = None
  ∧ controlsListening (dispose s tm).1 = false.
Proof.
  intros Ht. pose proof (cleared_tracked s tm Ht) as Hc.
  destruct s as [an cl ep eq lo la sts ri are ara iti fid pm am ofi]; simpl in *.
  unfold dispose; simpl.
  destruct iti; simpl in *;
    destruct sts as [[? []]|], ri as [[? []]|]; simpl; done.
Qed.

(** X5: [dispose] leaves no timer pending and stops the frame loop, and from
    then on control and timer events neither change the scene nor call the
    callback. *)
Theorem dispose_silences s tm :
  timersTracked s tm →
  let st := dispose s tm in
  Js.pendingTimers st.2 = [] ∧ animationId st.1 = None
  ∧ ∀ evs, after evs st = st ∧ concat (invocations evs st) = [].
Proof.
  intros Ht st.
  pose proof (dispose_fields s tm Ht) as Hst. fold st in Hst.
  destruct Hst as (Hp & Ha & Hl). split_and!; [done..|].
  destruct st as [s' tm']. simpl in *. clear Ht. intros evs. split.
  - induction evs as [|e evs IH]; [done|]. rewrite after_cons.
    replace (deliver e (s', tm')).1 with (s', tm'); [done|].
    destruct e as [| |id]; simpl; rewrite ?Hl; [done..|].
    rewrite Hp. done.
  - rewrite invocations_not_listening by done. apply concat_no_calls.
Qed.

(** What one event does to the fields the page cares about: it changes
    nothing a toggle shows, and it calls the callback exactly when it sets
    the first-interaction flag. *)
Lemma deliver_cases e s tm :
  let r := deliver e (s, tm) in
  (∀ op, shown op r.1.1 = shown op s)
  ∧ ((r.2 = [] ∧ firstInteractionDone r.1.1 = firstInteractionDone s)
     ∨ (∃ cb, r.2 = [cb] ∧ firstInteractionDone s = false
              ∧ firstInteractionDone r.1.1 = true)).
Proof.
  destruct s as [an cl ep eq lo la sts ri are ara iti fid pm am ofi].
  destruct e as [| |id]; simpl.
  - destruct cl; simpl; [|split; [by intros []|by left]].
    unfold handleControlStart; simpl.
    destruct iti, fid, ofi; simpl; (split; [by intros []|]); eauto.
  - destruct cl; simpl; [|split; [by intros []|by left]].
    unfold handleControlEnd; simpl.
    destruct ara, iti; simpl; (split; [by intros []|by left]).
  - case_bool_decide; simpl; (split; [by intros []|by left]).
Qed.

End Scene3DMore.

Lemma toggle_sets_its_member_only_witness :
  let s := Scene3D.initialize 1 (Scene3D.construct (Some HomePage.HandleFirstInteraction)) in
  View.shown Scene3D.EquatorVisibility (Scene3D.toggle Scene3D.EquatorVisibility false s)
  = Some false
  ∧ View.shown Scene3D.PoleVisibility (Scene3D.toggle Scene3D.EquatorVisibility false s)
    = View.shown Scene3D.PoleVisibility s.
Proof.
  intros s.
  destruct (toggle_sets_its_member_only Scene3D.EquatorVisibility Scene3D.PoleVisibility
              false false s) as (H1 & H2 & _).
  split; [apply H1; reflexivity|apply H2; discriminate].
Defined.

Lemma controlstart_cancels_resume_witness :
  let st := View.after [Scene3D.ControlEnd]
              (Scene3D.construct (Some HomePage.HandleFirstInteraction), Js.noTimers) in
  Scene3D.autoRotateEnabled
    (View.after [Scene3D.ControlStart; Scene3D.TimerFired 1; Scene3D.ControlStart] st).1
  = false.
Proof.
  intros st.
  apply (controlstart_cancels_resume st.1 st.2 [Scene3D.TimerFired 1; Scene3D.ControlStart]).
  - vm_compute. repeat constructor.
  - reflexivity.
  - apply (bool_decide_eq_true_1
             (Scene3D.ControlEnd ∉ [Scene3D.TimerFired 1; Scene3D.ControlStart])).
    vm_compute. reflexivity.
Defined.

Lemma inactivity_resumes_rotation_witness :
  let s := Scene3D.construct (Some HomePage.HandleFirstInteraction) in
  Scene3D.autoRotateEnabled
    (View.after [Scene3D.TimerFired 1]
       (View.after [Scene3D.ControlStart; Scene3D.ControlEnd] (s, Js.noTimers))).1
  = true.
Proof.
  intros s.
  pose (st := View.after [Scene3D.ControlStart] (s, Js.noTimers)).
  apply (inactivity_resumes_rotation st.1 st.2).
  - vm_compute. constructor.
  - reflexivity.
  - reflexivity.
Defined.

Lemma autorotate_off_stays_off_witness :
  let s := Scene3D.construct (Some HomePage.HandleFirstInteraction) in
  Scene3D.autoRotateEnabled
    (View.after [Scene3D.ControlStart; Scene3D.ControlEnd; Scene3D.TimerFired 1]
       (Scene3D.toggleAutoRotate false s, Js.noTimers)).1
  = false.
Proof.
  intros s. apply (proj1 (autorotate_off_stays_off s Js.noTimers)). reflexivity.
Defined.

Lemma dispose_silences_witness :
  let s := Scene3D.construct (Some HomePage.HandleFirstInteraction) in
  let st := View.after [Scene3D.ControlStart; Scene3D.ControlEnd] (s, Js.noTimers) in
  Js.pendingTimers (Scene3D.dispose st.1 st.2).2 = [].
Proof.
  intros s st. apply (dispose_silences st.1 st.2). vm_compute. repeat constructor.
Defined.

(** ** Home page: what stays true while it is mounted *)

Section HomePageMore.

Import HomePage View.

Lemma toggleFor_inj box box' : toggleFor box = toggleFor box' → box = box'.
Proof. by destruct box, box'. Qed.

Lemma create_healthy fresh p0 : healthy (create fresh p0).2.
Proof.
  destruct p0 as [el0 sc0 tm0 calls0]. unfold create, healthy. simpl.
  eexists _, _.
  split_and!; [reflexivity|reflexivity|by intros []|by intros []|done|simpl; lia|done].
Qed.

Lemma dispatch_healthy e p : healthy p → healthy (dispatch e p).
Proof.
  intros (el & sc & Hel & Hsc & Hl & Hs & Ho).
  destruct e as [box|onLeft|ce|].
  - rewrite (dispatch_change box p el sc Hel Hsc (Hl box)).
    destruct (toggle_control_fields (toggleFor box)
                (negb (checked (getCheckbox box (checkboxes el)))) sc) as [Hf Hi].
    eexists _, _. split_and!; [reflexivity..| | |].
    + intros box0. destruct el; simpl in *. rewrite getCheckbox_setCheckbox.
      case_decide; subst; simpl; apply Hl.
    + intros box0. destruct el; simpl in *. rewrite getCheckbox_setCheckbox.
      case_decide as Hb; subst; simpl.
      * apply shown_toggle_same. by eapply shown_present.
      * rewrite shown_toggle_other; [apply Hs|]. by intros ?%toggleFor_inj.
    + destruct el; simpl in *. by rewrite Hf.
  - destruct p as [? ? tm calls]; simpl in *; subst.
    eexists _, sc. split_and!; [reflexivity..| | |];
      unfold clickSidebarButton;
      destruct el as [n c boxes [lc li lw] [rc ri rw] o], onLeft, lw, rw;
      simpl in *; done.
  - destruct p as [? ? tm calls]; cbn [element scene timers] in *; subst.
    unfold dispatch; cbn [scene timers].
    pose proof (deliver_cases ce sc tm) as Hc.
    destruct (Scene3D.deliver ce (sc, tm)) as [[sc' tm'] cbs]. simpl in Hc.
    destruct Hc as [Hshown [[-> Hdone] | (cb & -> & Hdone & Hdone')]]; simpl.
    + exists el, sc'. split_and!; try done.
      * intros box. rewrite Hshown. apply Hs.
      * by rewrite Hdone.
    + destruct cb. destruct Ho as (Hop & Hn & H0). destruct (H0 Hdone) as [Hz Hd].
      eexists _, sc'. split_and!; [reflexivity..| | |].
      * intros box. destruct el; apply Hl.
      * intros box. rewrite Hshown. destruct el; apply Hs.
      * destruct el as [n c boxes l r [op ds ls]]; simpl in *. subst.
        rewrite Hdone'. split_and!; [done|lia|done].
  - destruct p as [? ? tm calls]; simpl in *; subst. case_decide as Hz.
    + exists el, sc. split_and!; done.
    + destruct Ho as (Hop & Hn & H0).
      eexists _, sc. split_and!; [reflexivity..| | |].
      * intros box. destruct el; apply Hl.
      * intros box. destruct el; apply Hs.
      * destruct el as [n c boxes l r [op ds ls]]; simpl in *.
        split_and!; [done|lia|]. intros Hdone. by destruct (H0 Hdone).
Qed.

Lemma dispatchAll_healthy evs p : healthy p → healthy (dispatchAll evs p).
Proof.
  revert p. induction evs as [|e evs IH]; intros p Hp; [done|].
  apply IH, dispatch_healthy, Hp.
Qed.

Lemma create_timersOwned fresh p0 :
  Js.pendingTimers (timers p0) = [] → timersOwned (create fresh p0).2.
Proof.
  intros Hp. destruct p0 as [el0 sc0 tm0 calls0]. simpl in Hp.
  unfold create, timersOwned. simpl. eexists. split; [reflexivity|].
  unfold timersTracked. simpl. rewrite Hp. constructor.
Qed.

Lemma dispatch_timersOwned e p :
  healthy p → timersOwned p → timersOwned (dispatch e p).
Proof.
  intros (el & sc & Hel & Hsc & Hl & _) (sc0 & Hsc0 & Ht).
  rewrite Hsc in Hsc0. injection Hsc0 as <-.
  destruct e as [box|onLeft|ce|].
  - rewrite (dispatch_change box p el sc Hel Hsc (Hl box)).
    destruct (toggle_control_fields (toggleFor box)
                (negb (checked (getCheckbox box (checkboxes el)))) sc) as [_ Hi].
    eexists. split; [reflexivity|]. unfold timersTracked in *. simpl. by rewrite Hi.
  - destruct p as [? ? tm calls]; simpl in *; subst. by exists sc.
  - destruct p as [? ? tm calls]; cbn [element scene timers] in *; subst.
    unfold dispatch; cbn [scene timers].
    pose proof (deliver_tracked ce sc tm Ht) as Ht'.
    destruct (Scene3D.deliver ce (sc, tm)) as [[sc' tm'] cbs]. simpl in Ht'.
    assert (Hcb : ∀ cbs q, timersOwned q →
                    timersOwned (foldl (λ p cb, runCallback cb p) q cbs)).
    { clear. induction cbs as [|cb cbs IH]; intros q Hq; [done|].
      simpl. apply IH. destruct Hq as (sc & Hsc & Ht).
      destruct q as [[el|] ? ? ?], cb; simpl in *; subst; by exists sc. }
    apply Hcb. by exists sc'.
  - destruct p as [? ? tm calls]; simpl in *; subst.
    case_decide; by exists sc.
Qed.

Lemma dispatchAll_timersOwned evs p :
  healthy p → timersOwned p → timersOwned (dispatchAll evs p).
Proof.
  revert p. induction evs as [|e evs IH]; intros p Hp Ht; [done|].
  apply IH; [by apply dispatch_healthy|by apply dispatch_timersOwned].
Qed.

(** X6: on a mounted home page, whatever the user has done since [create],
    each of the six scene members shows exactly what its checkbox says. *)
Theorem scene_follows_checkboxes fresh p0 evs box :
  let p := dispatchAll evs (create fresh p0).2 in
  is_Some (isChecked box p) ∧ boxShown box p = isChecked box p.
Proof.
  intros p.
  destruct (dispatchAll_healthy evs _ (create_healthy fresh p0))
    as (el & sc & Hel & Hsc & _ & Hs & _).
  fold p in Hel, Hsc. unfold isChecked, boxShown. rewrite Hel, Hsc. simpl.
  split; [eauto|apply Hs].
Qed.

(** X7: the hint overlay starts to fade exactly when the first camera
    interaction has happened, is never hidden before that, and never has
    more than one 'transitionend' listener. *)
Theorem overlay_fades_on_first_interaction fresh p0 evs :
  let p := dispatchAll evs (create fresh p0).2 in
  ∃ el sc,
    element p = Some el ∧ scene p = Some sc
    ∧ opacity (canvasOverlay el)
      = (if Scene3D.firstInteractionDone sc then "0" else EmptyString)
    ∧ (transitionendListeners (canvasOverlay el) ≤ 1)%nat
    ∧ (display (canvasOverlay el) = "none" → Scene3D.firstInteractionDone sc = true).
Proof.
  intros p.
  destruct (dispatchAll_healthy evs _ (create_healthy fresh p0))
    as (el & sc & Hel & Hsc & _ & _ & (Hop & Hn & H0)).
  exists el, sc. split_and!; try done.
  intros Hd. destruct (Scene3D.firstInteractionDone sc); [done|].
  destruct (H0 eq_refl) as [_ Hd']. by rewrite Hd' in Hd.
Qed.

(** X8: [destroy] on a mounted home page, whatever has happened since
    [create], drops the element and the scene and leaves no timer pending;
    a second [destroy] changes nothing. *)
Theorem destroy_releases_everything fresh p0 evs :
  Js.pendingTimers (timers p0) = [] →
  let p := destroy (dispatchAll evs (create fresh p0).2) in
  element p = None ∧ scene p = None
  ∧ Js.pendingTimers (timers p) = []
  ∧ destroy p = p.
Proof.
  intros Hp p.
  destruct (dispatchAll_timersOwned evs _ (create_healthy fresh p0)
              (create_timersOwned fresh p0 Hp)) as (sc & Hsc & Ht).
  subst p. destruct (dispatchAll evs (create fresh p0).2) as [? ? tm calls].
  simpl in *; subst. unfold destroy; simpl.
  destruct (dispose_fields sc tm Ht) as (Hpend & _ & _).
  destruct (Scene3D.dispose sc tm) as [sc' tm']. simpl in *. done.
Qed.

Lemma dispatch_sidebarsConsistent e p :
  healthy p → sidebarsConsistent p → sidebarsConsistent (dispatch e p).
Proof.
  intros (el & sc & Hel & Hsc & Hl & _) (el0 & Hel0 & Hwl & Hwr & Hil & Hir).
  rewrite Hel in Hel0. injection Hel0 as <-.
  destruct e as [box|onLeft|ce|].
  - rewrite (dispatch_change box p el sc Hel Hsc (Hl box)).
    eexists. split; [reflexivity|]. by destruct el.
  - destruct p as [? ? tm calls]; simpl in *; subst.
    eexists. split; [reflexivity|]. unfold clickSidebarButton.
    destruct el as [n c boxes [lc li lw] [rc ri rw] o]; simpl in *; subst.
    by destruct onLeft, lc, rc.
  - destruct p as [? ? tm calls]; cbn [element scene timers] in *; subst.
    unfold dispatch; cbn [scene timers].
    destruct (Scene3D.deliver ce (sc, tm)) as [[sc' tm'] cbs].
    assert (Hcb : ∀ cbs q, sidebarsConsistent q →
                    sidebarsConsistent (foldl (λ p cb, runCallback cb p) q cbs)).
    { clear. induction cbs as [|cb cbs IH]; intros q Hq; [done|].
      simpl. apply IH. destruct Hq as (el & Hel & H).
      destruct q, cb; simpl in *; subst. eexists. split; [reflexivity|].
      by destruct el. }
    apply Hcb. by exists el.
  - destruct p as [? ? tm calls]; simpl in *; subst. case_decide.
    + by exists el.
    + eexists. split; [reflexivity|]. by destruct el.
Qed.

(** X9: on a mounted home page, whatever has been clicked, each sidebar
    button shows the icon that belongs to its sidebar's state, and two
    clicks on the same button bring the page back to where it was. *)
Theorem sidebar_icons_follow_state fresh p0 evs onLeft :
  let p := dispatchAll evs (create fresh p0).2 in
  sidebarsConsistent p
  ∧ dispatch (SidebarButtonClick onLeft) (dispatch (SidebarButtonClick onLeft) p) = p.
Proof.
  intros p.
  assert (H : healthy p ∧ sidebarsConsistent p).
  { subst p. generalize (create_healthy fresh p0).
    assert (H0 : sidebarsConsistent (create fresh p0).2).
    { destruct p0. unfold create, sidebarsConsistent. simpl. eexists. by split. }
    revert H0. generalize (create fresh p0).2.
    induction evs as [|e evs IH]; intros q Hs Hh; [done|].
    simpl. apply IH; [by apply dispatch_sidebarsConsistent|by apply dispatch_healthy]. }
  destruct H as [_ Hs]. split; [done|].
  destruct Hs as (el & Hel & Hwl & Hwr & Hil & Hir).
  destruct p as [? sc tm calls]; simpl in *; subst. unfold clickSidebarButton.
  destruct el as [n c boxes [lc li lw] [rc ri rw] o]; simpl in *; subst.
  by destruct onLeft, lc, rc.
Qed.

End HomePageMore.

Lemma destroy_releases_everything_witness :
  let p := HomePage.destroy
             (HomePage.dispatchAll
                [HomePage.Control Scene3D.ControlStart; HomePage.Control Scene3D.ControlEnd]
                (HomePage.create 0 HomePage.construct).2) in
  Js.pendingTimers (HomePage.timers p) = [].
Proof.
  intros p.
  apply (destroy_releases_everything 0 HomePage.construct
           [HomePage.Control Scene3D.ControlStart; HomePage.Control Scene3D.ControlEnd]).
  reflexivity.
Defined.

(** ** Router: what navigation keeps and what it records *)

Section RouterMore.

Import Router View.

Context {Cls St : Type} `{!Page Cls St}.
Variable resolvePathname : string → string → string.

Implicit Types (w : World Cls St) (r pg c : ref) (st : St) (l es : list (Event Cls)).

(** A resolution either finds no page and changes nothing, or mounts the
    page it finds. *)
Lemma handleRouteChange_cases w :
  wf w →
  (resolves w = None ∧ exec Router.handleRouteChange w = w)
  ∨ (∃ pg st, resolves w = Some pg ∧ heapAfterDestroy w !! pg = Some st
              ∧ exec Router.handleRouteChange w = mounting pg st w).
Proof.
  intros Hw. destruct (resolves w) as [pg|] eqn:Hres.
  - right. destruct (wf_resolves w pg Hw Hres) as [st Hst].
    exists pg, st. split_and!; [done..|].
    unfold exec. by rewrite (handleRouteChange_resolved w pg st Hres Hst).
  - left. split; [done|]. unfold exec. by rewrite handleRouteChange_unresolved.
Qed.

(** The fields of the world after a mount. *)
Lemma mounting_fields pg st w :
  let w' := mounting pg st w in
  let el := (page_create (nextNode w) st).1 in
  let st' := (page_create (nextNode w) st).2 in
  routes w' = routes w ∧ locationOrigin w' = locationOrigin w
  ∧ locationPathname w' = locationPathname w ∧ history w' = history w
  ∧ navLinks w' = navLinks w
  ∧ heap w' = <[pg := st']> (heapAfterDestroy w)
  ∧ currentPage w' = Some pg ∧ nextNode w' = S (nextNode w)
  ∧ log w' = log w ++ destroyCalls w
             ++ [EvClear; EvCreate pg el; EvAppend pg el;
                 EvSetTitle (page_getTitle st'); EvScrollTo 0 0].
Proof. unfold mounting. by destruct (page_create (nextNode w) st). Qed.

(** What a resolution never touches. *)
Lemma handleRouteChange_frame w :
  wf w →
  let w' := exec Router.handleRouteChange w in
  routes w' = routes w ∧ locationOrigin w' = locationOrigin w
  ∧ locationPathname w' = locationPathname w ∧ history w' = history w
  ∧ navLinks w' = navLinks w ∧ length (heap w') = length (heap w).
Proof.
  intros Hw. simpl.
  destruct (handleRouteChange_cases w Hw) as [[_ ->]|(pg & st & _ & _ & ->)]; [done|].
  destruct (mounting_fields pg st w) as (-> & -> & -> & -> & -> & -> & _).
  by rewrite length_insert, heapAfterDestroy_length.
Qed.

Lemma wf_setLocation w q : wf w → wf (set_locationPathname q w).
Proof. intros Hw. by apply (wf_frame w _ []); destruct w; rewrite ?app_nil_r. Qed.

Lemma wf_emit w e : wf w → quiet e = true → wf (exec (emit e) w).
Proof.
  intros Hw He. apply (wf_frame w _ [e]); try (by destruct w). simpl. by rewrite He.
Qed.

(** What an action other than [addRoute] never touches. *)
Lemma step_frame w a :
  wf w → isAddRoute a = false →
  let w' := exec (Router.step resolvePathname a) w in
  routes w' = routes w ∧ locationOrigin w' = locationOrigin w
  ∧ length (heap w') = length (heap w).
Proof.
  intros Hw Ha. destruct a as [p cls| |p|q|e]; [done|..]; simpl.
  - unfold start. rewrite exec_seq.
    destruct (handleRouteChange_frame w Hw) as (Hr & Ho & _ & _ & _ & Hh).
    by destruct (exec Router.handleRouteChange w).
  - rewrite exec_navigate.
    pose proof (wf_pushState resolvePathname w p Hw) as Hw1.
    destruct (handleRouteChange_frame _ Hw1) as (Hr & Ho & _ & _ & _ & Hh).
    destruct (exec Router.handleRouteChange _); simpl in *.
    rewrite Hr, Ho, Hh. by destruct w.
  - rewrite exec_onPopState.
    destruct (handleRouteChange_frame _ (wf_setLocation w q Hw)) as (Hr & Ho & _ & _ & _ & Hh).
    rewrite Hr, Ho, Hh. by destruct w.
  - rewrite exec_onClick. destruct (closestAnchor e) as [a|]; [|done].
    destruct (_ && _); [|done]. rewrite exec_navigate.
    pose proof (wf_pushState resolvePathname _ (anchor_pathname a)
                  (wf_emit w EvPreventDefault Hw eq_refl)) as Hw1.
    destruct (handleRouteChange_frame _ Hw1) as (Hr & Ho & _ & _ & _ & Hh).
    destruct (exec Router.handleRouteChange _); simpl in *.
    rewrite Hr, Ho, Hh. by destruct w.
Qed.

(** X10: no action removes a route, and actions other than [addRoute] leave
    the route table as it is and construct no page instance. *)
Theorem route_table_only_grows
    origin path docTitle links children (acts acts' : list (Action Cls)) :
  let w := Router.run resolvePathname acts
             (newRouter origin path docTitle links children) in
  let w' := Router.run resolvePathname acts' w in
  dom (routes w) ⊆ dom (routes w')
  ∧ (forallb (λ a, negb (isAddRoute a)) acts' = true →
     routes w' = routes w ∧ length (heap w') = length (heap w)).
Proof.
  intros w w'. subst w'.
  assert (Hw : wf w) by apply wf_run, wf_newRouter.
  clearbody w. revert w Hw. induction acts' as [|a acts' IH]; intros w Hw; [done|].
  simpl. destruct (IH _ (wf_step resolvePathname w a Hw)) as [Hdom Hsame].
  destruct (isAddRoute a) eqn:Ha.
  - split; [|done]. etrans; [|exact Hdom].
    destruct a as [p cls| | | |]; try done. destruct w. unfold addRoute. simpl.
    rewrite dom_insert_L. apply union_subseteq_r.
  - destruct (step_frame w a Hw Ha) as (Hr & _ & Hh). simpl in *. split.
    + by rewrite <- Hr.
    + intros Hacts. destruct (Hsame Hacts) as [-> ->]. done.
Qed.



(** X13: a 'popstate' resolution leaves the highlighting of the nav links as
    it was: only [start] and [navigate] refresh it. *)
Theorem popstate_keeps_highlighting
    origin path docTitle links children (acts : list (Action Cls)) q :
  let w := Router.run resolvePathname acts
             (newRouter origin path docTitle links children) in
  navLinks (exec (onPopState q) w) = navLinks w.
Proof.
  intros w. assert (Hw : wf w) by apply wf_run, wf_newRouter.
  rewrite exec_onPopState.
  destruct (handleRouteChange_frame _ (wf_setLocation w q Hw)) as (_ & _ & _ & _ & -> & _).
  by destruct w.
Qed.

(** X14: a resolution leaves every page instance as it is, except the
    page being left and the page being mounted. *)
Theorem resolution_leaves_other_pages
    origin path docTitle links children (acts : list (Action Cls)) q r :
  let w := Router.run resolvePathname acts
             (newRouter origin path docTitle links children) in
  currentPage w ≠ Some r → resolvesAt q w ≠ Some r →
  heap (exec (onPopState q) w) !! r = heap w !! r.
Proof.
  intros w Hcur Hres. assert (Hw : wf w) by apply wf_run, wf_newRouter.
  rewrite exec_onPopState.
  destruct (handleRouteChange_cases _ (wf_setLocation w q Hw))
    as [[_ ->]|(pg & st & Hpg & _ & ->)]; [by destruct w|].
  destruct (mounting_fields pg st (set_locationPathname q w))
    as (_ & _ & _ & _ & _ & -> & _).
  assert (pg ≠ r) by (intros ->; apply Hres; by destruct w).
  rewrite list_lookup_insert_ne by done.
  unfold heapAfterDestroy.
  replace (currentPage (set_locationPathname q w)) with (currentPage w) by by destruct w.
  replace (heap (set_locationPathname q w)) with (heap w) by by destruct w.
  destruct (currentPage w) as [c|]; [|done].
  apply list_lookup_alter_ne. by intros ->.
Qed.

(** *** The log of an action *)

Lemma createsOf_app r l es : createsOf r (l ++ es) = createsOf r l + createsOf r es.
Proof. unfold createsOf. by rewrite List.filter_app, length_app. Qed.

Lemma destroysOf_app r l es : destroysOf r (l ++ es) = destroysOf r l + destroysOf r es.
Proof. unfold destroysOf. by rewrite List.filter_app, length_app. Qed.

Lemma createdNodes_app l es : createdNodes (l ++ es) = createdNodes l ++ createdNodes es.
Proof. apply omap_app. Qed.

Lemma calm_counts r es :
  forallb calm es = true →
  createsOf r es = 0 ∧ destroysOf r es = 0 ∧ createdNodes es = [].
Proof.
  induction es as [|e es IH]; [done|]. simpl. intros [He Hes]%andb_prop.
  destruct (IH Hes) as (Hc & Hd & Hn).
  unfold createsOf, destroysOf, createdNodes in *. by destruct e.
Qed.

(** What an action adds to the log: either calls other than [create] and
    [destroy], leaving the current page as it is, or such calls followed
    by the calls of one mount. *)
Lemma resolution_cases w w1 pre :
  wf w1 → currentPage w1 = currentPage w → heap w1 = heap w →
  nextNode w1 = nextNode w → log w1 = log w ++ pre → forallb calm pre = true →
  let w' := exec Router.handleRouteChange w1 in
  (currentPage w' = currentPage w ∧ nextNode w' = nextNode w
   ∧ ∃ es, log w' = log w ++ es ∧ forallb calm es = true)
  ∨ (∃ pg st t,
       heapAfterDestroy w !! pg = Some st
       ∧ currentPage w' = Some pg ∧ nextNode w' = S (nextNode w)
       ∧ ∃ pre, forallb calm pre = true
           ∧ log w' = log w ++ pre
                      ++ mountCalls w pg (page_create (nextNode w) st).1 t).
Proof.
  intros Hw1 Hc Hh Hn Hl Hpre. simpl.
  destruct (handleRouteChange_cases w1 Hw1) as [[_ ->]|(pg & st & _ & Hst & ->)].
  - left. split_and!; [done..|]. by exists pre.
  - right. destruct (mounting_fields pg st w1) as (_ & _ & _ & _ & _ & _ & -> & -> & ->).
    assert (Hhd : heapAfterDestroy w1 = heapAfterDestroy w).
    { unfold heapAfterDestroy. by rewrite Hc, Hh. }
    assert (Hdc : destroyCalls w1 = destroyCalls w).
    { unfold destroyCalls. by rewrite Hc. }
    rewrite Hhd in Hst. rewrite Hn, Hl, Hdc.
    exists pg, st, (page_getTitle (page_create (nextNode w) st).2).
    split_and!; [done..|]. exists pre. split; [done|].
    unfold mountCalls. by rewrite <- !app_assoc.
Qed.

Lemma setupNavHighlighting_fields (x : World Cls St) :
  currentPage (exec setupNavHighlighting x) = currentPage x
  ∧ nextNode (exec setupNavHighlighting x) = nextNode x
  ∧ log (exec setupNavHighlighting x) = log x.
Proof. by destruct x. Qed.

Lemma step_cases w a :
  wf w →
  let w' := exec (Router.step resolvePathname a) w in
  (currentPage w' = currentPage w ∧ nextNode w' = nextNode w
   ∧ ∃ es, log w' = log w ++ es ∧ forallb calm es = true)
  ∨ (∃ pg st t,
       heapAfterDestroy w !! pg = Some st
       ∧ currentPage w' = Some pg ∧ nextNode w' = S (nextNode w)
       ∧ ∃ pre, forallb calm pre = true
           ∧ log w' = log w ++ pre
                      ++ mountCalls w pg (page_create (nextNode w) st).1 t).
Proof.
  intros Hw. destruct a as [p cls| |p|q|e]; simpl.
  - left. destruct w. unfold addRoute. simpl. split_and!; [done..|]. by eexists [_].
  - unfold start. rewrite exec_seq.
    destruct (setupNavHighlighting_fields (exec Router.handleRouteChange w))
      as (-> & -> & ->).
    apply (resolution_cases w w []); try done. by rewrite app_nil_r.
  - rewrite exec_navigate.
    destruct (setupNavHighlighting_fields
                (exec Router.handleRouteChange (exec (pushState resolvePathname p) w)))
      as (-> & -> & ->).
    apply (resolution_cases w _ [EvPushState p]);
      [by apply wf_pushState|by destruct w..|done].
  - rewrite exec_onPopState.
    apply (resolution_cases w _ []);
      [by apply wf_setLocation|try by destruct w..|done].
    destruct w; simpl. by rewrite app_nil_r.
  - rewrite exec_onClick. destruct (closestAnchor e) as [a|].
    2:{ left. split_and!; [done..|]. exists []. by rewrite app_nil_r. }
    destruct (_ && _).
    2:{ left. split_and!; [done..|]. exists []. by rewrite app_nil_r. }
    rewrite exec_navigate.
    destruct (setupNavHighlighting_fields
                (exec Router.handleRouteChange
                   (exec (pushState resolvePathname (anchor_pathname a))
                      (exec (emit EvPreventDefault) w))))
      as (-> & -> & ->).
    apply (resolution_cases w _ [EvPreventDefault; EvPushState (anchor_pathname a)]);
      [by apply wf_pushState, wf_emit|try by destruct w..|done].
    destruct w; simpl. by rewrite <- app_assoc.
Qed.

(** X15: in every state the router reaches, each page instance has been
    created as often as it has been destroyed, plus once if it is the
    current page: no page is created twice without a destroy in between,
    and none is left created once it is no longer current. *)
Theorem lifecycle_balanced
    origin path docTitle links children (acts : list (Action Cls)) r :
  let w := Router.run resolvePathname acts
             (newRouter origin path docTitle links children) in
  createsOf r (log w) = destroysOf r (log w) + isCurrent r (currentPage w).
Proof.
  intros w. subst w.
  assert (H : ∀ w, wf w →
                createsOf r (log w) = destroysOf r (log w) + isCurrent r (currentPage w) →
                let w' := Router.run resolvePathname acts w in
                createsOf r (log w') = destroysOf r (log w') + isCurrent r (currentPage w')).
  { induction acts as [|a acts IH]; intros w Hw Hb; [done|].
    simpl. apply IH; [by apply wf_step|].
    destruct (step_cases w a Hw)
      as [(-> & _ & es & -> & Hes)|(pg & st & t & _ & -> & _ & pre & Hpre & ->)].
    - destruct (calm_counts r es Hes) as (Hc & Hd & _).
      rewrite createsOf_app, destroysOf_app, Hc, Hd. lia.
    - destruct (calm_counts r pre Hpre) as (Hc & Hd & _).
      rewrite !createsOf_app, !destroysOf_app, Hc, Hd. unfold mountCalls.
      rewrite createsOf_app, destroysOf_app.
      unfold destroyCalls, isCurrent in *.
      destruct (currentPage w) as [c|]; unfold createsOf, destroysOf in *; simpl;
        repeat case_bool_decide; simplify_eq; simpl; lia. }
  apply H; [apply wf_newRouter|done].
Qed.

(** X16: when the pages return as their root the node they were handed, the
    roots returned by all calls of [create] so far are the nodes
    0, 1, 2, ... in order: every mount gets a root that was never used
    before. *)
Theorem mounted_roots_are_new
    origin path docTitle links children (acts : list (Action Cls)) :
  (∀ n st, (page_create n st).1 = n) →
  let w := Router.run resolvePathname acts
             (newRouter origin path docTitle links children) in
  createdNodes (log w) = seq 0 (nextNode w) ∧ NoDup (createdNodes (log w)).
Proof.
  intros Hfresh w.
  assert (H : createdNodes (log w) = seq 0 (nextNode w)); [|split; [done|]].
  2:{ rewrite H. apply NoDup_seq. }
  subst w.
  assert (H : ∀ w, wf w → createdNodes (log w) = seq 0 (nextNode w) →
                let w' := Router.run resolvePathname acts w in
                createdNodes (log w') = seq 0 (nextNode w')).
  { induction acts as [|a acts IH]; intros w Hw Hb; [done|].
    simpl. apply IH; [by apply wf_step|].
    destruct (step_cases w a Hw)
      as [(_ & -> & es & -> & Hes)|(pg & st & t & _ & _ & -> & pre & Hpre & ->)].
    - destruct (calm_counts 0 es Hes) as (_ & _ & Hn).
      by rewrite createdNodes_app, Hn, app_nil_r.
    - destruct (calm_counts 0 pre Hpre) as (_ & _ & Hn).
      rewrite !createdNodes_app, Hn, Hb, Hfresh. unfold mountCalls.
      rewrite createdNodes_app. unfold destroyCalls.
      rewrite seq_S. by destruct (currentPage w). }
  apply H; [apply wf_newRouter|done].
Qed.

(** X17: registrations for different paths commute: either order gives the
    same route table, instance for instance; and a registration changes
    neither what is mounted nor what any other path leads to. *)
Theorem addRoute_commutes
    origin path docTitle links children (acts : list (Action Cls)) p1 F1 p2 F2 :
  p1 ≠ p2 →
  let w := Router.run resolvePathname acts
             (newRouter origin path docTitle links children) in
  routeTable (exec (addRoute p2 F2) (exec (addRoute p1 F1) w))
  = routeTable (exec (addRoute p1 F1) (exec (addRoute p2 F2) w))
  ∧ mountState (exec (addRoute p1 F1) w) = mountState w
  ∧ routeTable (exec (addRoute p1 F1) w) !! p2 = routeTable w !! p2.
Proof.
  intros Hne w.
  assert (Hw : wf w) by apply wf_run, wf_newRouter.
  destruct Hw as (Hr & _ & _).
  destruct w as [rt ct cur hp lo lp hi ti sc nl nn lg]; simpl in Hr.
  unfold addRoute, routeTable, mountState. simpl.
  rewrite !length_app; simpl. rewrite !Nat.add_1_r. unfold Router.ref in *.
  assert (Hold : ∀ k (i : nat) x y, rt !! k = Some i →
            ((hp ++ [x]) ++ [y]) !! i = hp !! i ∧ (hp ++ [x]) !! i = hp !! i).
  { intros k i x y Hk. pose proof (Hr _ _ Hk) as Hlt. simpl in Hlt.
    rewrite <- app_assoc. by rewrite !lookup_app_l by lia. }
  assert (Hnew : ∀ x y, ((hp ++ [x]) ++ [y]) !! length hp = Some x
                        ∧ ((hp ++ [x]) ++ [y]) !! S (length hp) = Some y
                        ∧ (hp ++ [x]) !! length hp = Some x).
  { intros x y. split_and!.
    - rewrite <- app_assoc, lookup_app_r by lia.
      by replace (length hp - length hp) with 0 by lia.
    - rewrite lookup_app_r by (rewrite length_app; simpl; lia).
      rewrite length_app; simpl.
      by replace (S (length hp) - (length hp + 1)) with 0 by lia.
    - rewrite lookup_app_r by lia.
      by replace (length hp - length hp) with 0 by lia. }
  split_and!; [|done|].
  - apply map_eq. intros k. rewrite !lookup_omap.
    destruct (decide (k = p1)) as [->|Hk1]; [|destruct (decide (k = p2)) as [->|Hk2]].
    + rewrite lookup_insert_ne, !lookup_insert_eq by done. simpl.
      destruct (Hnew (page_new F1) (page_new F2)) as (-> & _ & _).
      by destruct (Hnew (page_new F2) (page_new F1)) as (_ & -> & _).
    + rewrite lookup_insert_eq, lookup_insert_ne, lookup_insert_eq by done. simpl.
      destruct (Hnew (page_new F1) (page_new F2)) as (_ & -> & _).
      by destruct (Hnew (page_new F2) (page_new F1)) as (-> & _ & _).
    + rewrite !lookup_insert_ne by done.
      destruct (rt !! k) as [r0|] eqn:Hk; [|done]. simpl.
      destruct (Hold k r0 (page_new F1) (page_new F2) Hk) as [-> _].
      by destruct (Hold k r0 (page_new F2) (page_new F1) Hk) as [-> _].
  - rewrite !lookup_omap, lookup_insert_ne by done.
    destruct (rt !! p2) as [r0|] eqn:Hk; [|done]. simpl.
    by destruct (Hold p2 r0 (page_new F1) (page_new F1) Hk) as [_ ->].
Qed.


End RouterMore.

(** ** The application: the scene lives exactly while the home page is mounted *)

Section AppMore.

Import Router View.

Variable resolvePathname : string → string → string.

Implicit Types (w : World AppPageClass AppPage).

Lemma appState_resolvesAt w q :
  appState w → resolvesAt q w = Some (appPage q).
Proof.
  intros [Hr _]. unfold resolvesAt, appPage. rewrite Hr.
  case_bool_decide as Hq; [subst|].
  - by rewrite lookup_insert_ne, lookup_insert_eq.
  - destruct (decide (q = "*")) as [->|Hs]; [by rewrite lookup_insert_eq|].
    rewrite !lookup_insert_ne, lookup_empty by done.
    by rewrite lookup_insert_eq.
Qed.

Lemma destroy_drops p :
  HomePage.scene (HomePage.destroy p) = None ∧ HomePage.element (HomePage.destroy p) = None.
Proof.
  destruct p as [el [sc|] tm calls]; unfold HomePage.destroy; simpl; [|done].
  by destruct (Scene3D.dispose sc tm).
Qed.

Lemma create_builds fresh p :
  is_Some (HomePage.scene (HomePage.create fresh p).2)
  ∧ is_Some (HomePage.element (HomePage.create fresh p).2).
Proof.
  destruct (create_wired_up fresh p) as (el & sc & -> & -> & _). eauto.
Qed.

(** Once the outgoing page is destroyed, neither instance holds
    anything. *)
Lemma appState_after_destroy w :
  appState w →
  ∃ hp np, heapAfterDestroy w = [Home hp; NotFound np]
           ∧ HomePage.scene hp = None ∧ HomePage.element hp = None
           ∧ NotFoundPage.element np = None.
Proof.
  intros (_ & hp & np & Hh & Hcur & Hs & He & Hn).
  assert (Hnone : ∀ {A} (o : option A), ¬ is_Some o → o = None).
  { intros A [x|] Ho; [|done]. destruct Ho. eauto. }
  unfold heapAfterDestroy. rewrite Hh.
  destruct Hcur as [Hc|[Hc|Hc]]; rewrite Hc in *; simpl.
  - exists hp, np. split_and!; [done|apply Hnone..]; rewrite ?Hs, ?He, ?Hn; done.
  - destruct (destroy_drops hp) as [Hd1 Hd2].
    exists (HomePage.destroy hp), np. split_and!; [done..|].
    apply Hnone. rewrite Hn. done.
  - exists hp, (NotFoundPage.destroy np).
    split_and!; [done|apply Hnone..|done]; rewrite ?Hs, ?He; done.
Qed.

(** A resolution in the application mounts the page of the location and
    keeps the application's state. *)
Lemma appState_resolution w :
  appState w →
  let w' := exec Router.handleRouteChange w in
  appState w'
  ∧ currentPage w' = Some (appPage (locationPathname w))
  ∧ locationPathname w' = locationPathname w
  ∧ title w' = (if bool_decide (locationPathname w = "/")
                then "3D Experience | Home" else "404 - Page Not Found").
Proof.
  intros Hw. pose proof (appState_resolvesAt w (locationPathname w) Hw) as Hres.
  destruct (appState_after_destroy w Hw) as (hp & np & Hh & Hs & He & Hn).
  destruct Hw as (Hr & _). fold (resolves w) in Hres. unfold appPage in *. simpl.
  unfold exec. case_bool_decide as Hq.
  - rewrite (handleRouteChange_resolved w 0 (Home hp) Hres) by (by rewrite Hh).
    unfold mounting. rewrite Hh. simpl.
    destruct (create_builds (nextNode w) hp) as [Hb1 Hb2].
    split_and!; [|done..]. split; [done|]. simpl.
    exists (HomePage.create (nextNode w) hp).2, np.
    split_and!; [done|eauto|done|done|].
    rewrite Hn. split; [by intros [? ?]|done].
  - rewrite (handleRouteChange_resolved w 1 (NotFound np) Hres) by (by rewrite Hh).
    unfold mounting. rewrite Hh. simpl.
    split_and!; [|done..]. split; [done|]. simpl.
    eexists hp, _. split_and!; try done; eauto;
      rewrite ?Hs, ?He; (split; [by intros [? ?]|done]).
Qed.

(** The steps between resolutions keep the application's state. *)
Lemma appState_frame w w' :
  appState w → routes w' = routes w → heap w' = heap w →
  currentPage w' = currentPage w → appState w'.
Proof. unfold appState. by intros Hw -> -> ->. Qed.

Lemma appState_step w a :
  isAddRoute a = false →
  appState w → currentPage w = Some (appPage (locationPathname w)) →
  let w' := exec (Router.step resolvePathname a) w in
  appState w' ∧ currentPage w' = Some (appPage (locationPathname w')).
Proof.
  intros Ha Hw Hsync. destruct a as [p cls| |p|q|e]; [done|..]; simpl.
  - unfold start. rewrite exec_seq.
    destruct (appState_resolution w Hw) as (Hw' & Hc & Hl & _).
    destruct (exec Router.handleRouteChange w); simpl in *. by rewrite Hl.
  - rewrite exec_navigate.
    assert (Hw1 : appState (exec (pushState resolvePathname p) w))
      by (by apply (appState_frame w); destruct w).
    destruct (appState_resolution _ Hw1) as (Hw' & Hc & Hl & _).
    destruct (exec Router.handleRouteChange _); simpl in *. by rewrite Hl.
  - rewrite exec_onPopState.
    assert (Hw1 : appState (set_locationPathname q w))
      by (by apply (appState_frame w); destruct w).
    destruct (appState_resolution _ Hw1) as (Hw' & Hc & Hl & _). by rewrite Hl.
  - rewrite exec_onClick. destruct (closestAnchor e) as [a|]; [|done].
    destruct (_ && _); [|done]. rewrite exec_navigate.
    assert (Hw1 : appState (exec (pushState resolvePathname (anchor_pathname a))
                              (exec (emit EvPreventDefault) w)))
      by (by apply (appState_frame w); destruct w).
    destruct (appState_resolution _ Hw1) as (Hw' & Hc & Hl & _).
    destruct (exec Router.handleRouteChange _); simpl in *. by rewrite Hl.
Qed.

Lemma appState_booted path :
  let w := Router.run resolvePathname Main.boot (Main.document path) in
  appState w ∧ currentPage w = Some (appPage (locationPathname w)).
Proof.
  simpl.
  assert (H0 : appState (exec (addRoute "*" NotFoundPageClass)
                           (exec (addRoute "/" HomePageClass) (Main.document path)))).
  { split; [done|]. eexists _, _. split; [reflexivity|]. simpl.
    split_and!; [by left|split; [by intros [? ?]|done]..]. }
  unfold start. rewrite exec_seq.
  destruct (appState_resolution _ H0) as (Hw' & Hc & Hl & _).
  destruct (exec Router.handleRouteChange _); simpl in *. by rewrite Hl.
Qed.

(** X19: in the application of [main.ts], after the bootstrap and any further
    navigations, history moves and clicks, the home page is the current
    page exactly when the location is ["/"] and the 404 page otherwise;
    the home page holds its scene and element, and the 404 page its
    element, exactly while it is the current page. *)
Theorem scene_lives_while_home_is_mounted path (acts : list (Action AppPageClass)) :
  forallb (λ a, negb (isAddRoute a)) acts = true →
  let w := Router.run resolvePathname (Main.boot ++ acts) (Main.document path) in
  currentPage w = Some (appPage (locationPathname w))
  ∧ ∃ hp np,
      heap w = [Home hp; NotFound np]
      ∧ (is_Some (HomePage.scene hp) ↔ locationPathname w = "/")
      ∧ (is_Some (HomePage.element hp) ↔ locationPathname w = "/")
      ∧ (is_Some (NotFoundPage.element np) ↔ locationPathname w ≠ "/").
Proof.
  intros Hacts w.
  assert (H : appState w ∧ currentPage w = Some (appPage (locationPathname w))).
  { subst w. unfold Router.run. rewrite foldl_app.
    pose proof (appState_booted path) as Hb. unfold Router.run in Hb.
    revert Hb. generalize (foldl (λ w a, exec (Router.step resolvePathname a) w)
                             (Main.document path) Main.boot).
    induction acts as [|a acts IH]; intros w [Hw Hsync]; [done|].
    simpl in Hacts. apply andb_prop in Hacts as [Ha Hacts].
    simpl. apply IH; [done|]. apply appState_step; [|done..].
    by destruct (isAddRoute a). }
  destruct H as [(_ & hp & np & Hh & _ & Hs & He & Hn) Hc].
  split; [done|]. exists hp, np. rewrite Hs, He, Hn, Hc. unfold appPage.
  split_and!; [done|..]; case_bool_decide; split; intros; simplify_eq; done.
Qed.

End AppMore.

(** ** The further properties at concrete inputs *)

Lemma resolution_leaves_other_pages_witness :
  let w := Router.run Main.resolveAtRoot (Main.boot ++ [Router.Navigate "/unknown"])
             (Main.document "/") in
  Router.heap (Router.exec (Router.onPopState "/missing") w) !! 0 = Router.heap w !! 0.
Proof.
  intros w.
  apply (resolution_leaves_other_pages Main.resolveAtRoot
           "https://example.com" "/" EmptyString [] []
           (Main.boot ++ [Router.Navigate "/unknown"]) "/missing" 0).
  - vm_compute. discriminate.
  - vm_compute. discriminate.
Defined.

Lemma mounted_roots_are_new_witness :
  let w := Router.run Main.resolveAtRoot
             (Main.boot ++ [Router.Navigate "/unknown"; Router.PopState "/";
                            Router.Navigate "/"])
             (Main.document "/") in
  View.createdNodes (Router.log w) = seq 0 (Router.nextNode w).
Proof.
  intros w.
  refine (proj1 (mounted_roots_are_new Main.resolveAtRoot
                   "https://example.com" "/" EmptyString [] []
                   (Main.boot ++ [Router.Navigate "/unknown"; Router.PopState "/";
                                  Router.Navigate "/"]) _)).
  intros n [p|p]; reflexivity.
Defined.

Lemma addRoute_commutes_witness :
  let w := Router.run Main.resolveAtRoot Main.boot (Main.document "/") in
  Router.routeTable
    (Router.exec (Router.addRoute "/b" HomePageClass)
       (Router.exec (Router.addRoute "/a" NotFoundPageClass) w))
  = Router.routeTable
      (Router.exec (Router.addRoute "/a" NotFoundPageClass)
         (Router.exec (Router.addRoute "/b" HomePageClass) w)).
Proof.
  intros w.
  apply (addRoute_commutes Main.resolveAtRoot "https://example.com" "/" EmptyString [] []
           Main.boot "/a" NotFoundPageClass "/b" HomePageClass).
  discriminate.
Defined.


Lemma scene_lives_while_home_is_mounted_witness :
  let w := Router.run Main.resolveAtRoot
             (Main.boot ++ [Router.Navigate "/unknown"; Router.PopState "/";
                            Router.Click (Main.clickOn Main.foreignLink)])
             (Main.document "/") in
  Router.currentPage w = Some (View.appPage (Router.locationPathname w)).
Proof.
  intros w.
  apply (scene_lives_while_home_is_mounted Main.resolveAtRoot "/"
           [Router.Navigate "/unknown"; Router.PopState "/";
            Router.Click (Main.clickOn Main.foreignLink)]).
  reflexivity.
Defined.
